(** * Repository access gate of the GitHub MCP server

    Shallow embedding of package [access] (the per-user repository access
    validator, its normalizer of repository references and the fetch from
    the resource-map service) and of the gated tool handlers of package
    [github] that consult the validator before they reach the provider.

    Go strings are byte strings: they are [string] here (a list of 8-bit
    characters).  A Go [(T, error)] pair whose value is the zero value on
    error is a [result]; an [error] is the text that [err.Error()] yields,
    so that [fmt.Errorf("...: %w", err)] is a concatenation. *)

From Stdlib Require Import ZArith Lia Ascii.
From stdpp Require Import base option list strings gmap.

Local Open Scope Z_scope.
Local Open Scope nat_scope.

(** ** Errors and results *)

Definition error := string.

Inductive result (A : Type) : Type :=
| Ok (a : A)
| Err (e : error).
Arguments Ok {A} a.
Arguments Err {A} e.

Definition is_Ok {A} (r : result A) : bool :=
  match r with Ok _ => true | Err _ => false end.

(** ** The functions of Go's [strings] package that the sources call *)

Module GoStrings.

Fixpoint len (s : string) : nat :=
  match s with
  | EmptyString => 0
  | String _ s' => S (len s')
  end.

(** [s[n:]], for [n <= len(s)]. *)
Fixpoint drop (n : nat) (s : string) : string :=
  match n, s with
  | 0, _ => s
  | S n', String _ s' => drop n' s'
  | S _, EmptyString => EmptyString
  end.

(** [s[:n]], for [n <= len(s)]. *)
Fixpoint take (n : nat) (s : string) : string :=
  match n, s with
  | 0, _ => EmptyString
  | S n', String c s' => String c (take n' s')
  | S _, EmptyString => EmptyString
  end.

(** [strings.HasPrefix(s, prefix)]:
    [len(s) >= len(prefix) && s[:len(prefix)] == prefix]. *)
Definition HasPrefix (s prefix : string) : bool :=
  (len prefix <=? len s) && bool_decide (take (len prefix) s = prefix).

(** [strings.HasSuffix(s, suffix)]:
    [len(s) >= len(suffix) && s[len(s)-len(suffix):] == suffix]. *)
Definition HasSuffix (s suffix : string) : bool :=
  (len suffix <=? len s)
  && bool_decide (drop (len s - len suffix) s = suffix).

(** [strings.TrimPrefix]: [s] without the leading [prefix], or [s]. *)
Definition TrimPrefix (s prefix : string) : string :=
  if HasPrefix s prefix then drop (len prefix) s else s.

(** [strings.TrimSuffix]: [s] without the trailing [suffix], or [s]. *)
Definition TrimSuffix (s suffix : string) : string :=
  if HasSuffix s suffix then take (len s - len suffix) s else s.

(** [strings.Count(s, sep)] for a separator of one byte. *)
Fixpoint Count (s : string) (sep : ascii) : nat :=
  match s with
  | EmptyString => 0
  | String c s' => (if bool_decide (c = sep) then 1 else 0) + Count s' sep
  end.

(** [strings.Split(s, sep)] for a separator of one byte: the pieces
    between the separators, [Count s sep + 1] of them. *)
Fixpoint Split (s : string) (sep : ascii) : list string :=
  match s with
  | EmptyString => [EmptyString]
  | String c s' =>
      if bool_decide (c = sep) then EmptyString :: Split s' sep
      else match Split s' sep with
           | piece :: pieces => String c piece :: pieces
           | [] => [String c EmptyString]
           end
  end.

(** [strings.Index(s, sep) >= 0] cut: the text before the first [sep] and
    the text from it on (separator included), or [s] and nothing. *)
Fixpoint break (s : string) (sep : ascii) : string * option string :=
  match s with
  | EmptyString => (EmptyString, None)
  | String c s' =>
      if bool_decide (c = sep) then (EmptyString, Some s)
      else let '(before, rest) := break s' sep in (String c before, rest)
  end.

(** [strings.LastIndex(s, sep)] cut: the text after the last [sep], or
    [None] when [sep] does not occur. *)
Fixpoint after_last (s : string) (sep : ascii) : option string :=
  match s with
  | EmptyString => None
  | String c s' =>
      match after_last s' sep with
      | Some t => Some t
      | None => if bool_decide (c = sep) then Some s' else None
      end
  end.

(** The lower-case mapping of [strings.ToLower] on the ASCII letters. *)
Definition lower_byte (c : ascii) : ascii :=
  let n := nat_of_ascii c in
  if (65 <=? n) && (n <=? 90) then ascii_of_nat (n + 32) else c.

Fixpoint ToLower (s : string) : string :=
  match s with
  | EmptyString => EmptyString
  | String c s' => String (lower_byte c) (ToLower s')
  end.

End GoStrings.

Import GoStrings.

(** ** [net/url]: the parsed URL and the parser interface *)

(** The fields of [url.URL] that the sources read or that decide them. *)
Record URL : Type := mkURL {
  Scheme : string;
  Host : string;
  Path : string;
  RawQuery : string;
  Fragment : string;
}.

(** [url.Parse] belongs to Go's standard library.  The normalizer is
    written against this interface, and the theorems about it hold for
    every parser. *)
Class UrlParser : Type := url_Parse : string -> result URL.

(** A model of [url.Parse] on the references the normalizer hands to it
    (they start with [http://] or [https://]): control bytes are refused,
    the fragment is cut at the first [#], the scheme at the first [:], the
    query at the first [?]; after [//] the authority runs to the first
    [/], the host is what follows its last [@], and the rest is the path.
    The scheme is lower-cased, the host is kept as written.
    Percent-decoding, the validation of ports and of user information and
    bracketed IPv6 hosts are not modelled: on a reference with a scheme
    that contains none of [%], [@], [\[] and no [:] after the scheme, this
    is the result of [url.Parse]. *)
Fixpoint has_control_byte (s : string) : bool :=
  match s with
  | EmptyString => false
  | String c s' =>
      (nat_of_ascii c <? 32) || (nat_of_ascii c =? 127) || has_control_byte s'
  end.

Definition net_url_Parse (rawURL : string) : result URL :=
  if has_control_byte rawURL
  then Err "parse: net/url: invalid control character in URL"
  else
    let '(u, frag) := break rawURL "#" in
    let '(scheme, rest) :=
      match break u ":" with
      | (scheme, Some rest) => (scheme, drop 1 rest)
      | (_, None) => ("", u)
      end in
    let '(rest, query) := break rest "?" in
    let '(host, path) :=
      if HasPrefix rest "//" then
        let '(authority, path) := break (drop 2 rest) "/" in
        (default authority (after_last authority "@"), default "" path)
      else ("", rest) in
    Ok {| Scheme := ToLower scheme;
          Host := host;
          Path := path;
          RawQuery := drop 1 (default "" query);
          Fragment := drop 1 (default "" frag) |}.

(** ** Package [access]: the normalizer *)

(** [isValidRepoPath] validates that a path is in the format owner/repo. *)
Definition isValidRepoPath (path : string) : bool :=
  if bool_decide (path = "") then false
  else
    let parts := Split path "/" in
    if negb (List.length parts =? 2) then false
    else
      (* Both owner and repo name should be non-empty *)
      negb (bool_decide (parts !!! 0 = "")) && negb (bool_decide (parts !!! 1 = "")).

Definition unsupported (repoURL : string) : error :=
  "unsupported repository URL format: " +:+ repoURL.

(** [normalizeRepositoryURL] converts the GitHub URL formats
    [https://github.com/owner/repo], [github.com/owner/repo] and
    [owner/repo] to one format. *)
Definition normalizeRepositoryURL {parser : UrlParser} (repoURL : string) : result string :=
  if bool_decide (repoURL = "") then Err "repository URL cannot be empty"
  else if HasPrefix repoURL "http://" || HasPrefix repoURL "https://" then
    (* Handle full URLs *)
    match url_Parse repoURL with
    | Err err => Err ("invalid URL format: " +:+ err)
    | Ok parsedURL =>
        (* Validate that this is a GitHub URL *)
        if negb (bool_decide (Host parsedURL = "github.com")) then Err (unsupported repoURL)
        else
          let path := TrimPrefix (Path parsedURL) "/" in
          let path := TrimSuffix path ".git" in
          if negb (isValidRepoPath path) then Err (unsupported repoURL)
          else Ok ("github.com/" +:+ path)
    end
  else if HasPrefix repoURL "github.com/" then
    (* Handle github.com/owner/repo format *)
    let path := TrimPrefix repoURL "github.com/" in
    let path := TrimSuffix path ".git" in
    if negb (isValidRepoPath path) then Err (unsupported repoURL)
    else Ok ("github.com/" +:+ path)
  else if Count repoURL "/" =? 1 then
    (* Handle owner/repo format *)
    let path := TrimSuffix repoURL ".git" in
    if negb (isValidRepoPath path) then Err (unsupported repoURL)
    else Ok ("github.com/" +:+ path)
  else Err (unsupported repoURL).

(** ** Package [access]: the resource-map service *)

Record repository : Type := mkRepository {
  repo : string;
  org : string;
}.

(** The getters have pointer receivers and answer the empty string on a
    nil receiver. *)
Definition GetOrg (r : option repository) : string :=
  match r with
  | None => ""
  | Some r => org r
  end.

Definition GetRepo (r : option repository) : string :=
  match r with
  | None => ""
  | Some r => repo r
  end.

(** The resource-map service is reached over gRPC; it is the one external
    party of the package.  Its behaviour is an oracle: what the n-th
    connection set-up and the n-th [Traverse] request answer.  The record
    also keeps what was asked of it so far.  An output node of [Traverse]
    is the map of its properties ([output.GetNode().GetProperties()]). *)
Inductive DialFailure : Type :=
| ConnectionFailed (err : error)   (* [newConnection] fails *)
| ClientFailed (err : error).      (* [pb.NewSyncClient] fails *)

Record ResourceMapService : Type := mkService {
  rms_dial : nat -> option DialFailure;
  rms_traverse : nat -> string -> result (list (gmap string string));
  rms_dials : nat;
  rms_requests : list string;
}.

(** [log.Fatalf] ends the process: a computation either is cut short that
    way or carries on with a value. *)
Inductive proc (A : Type) : Type :=
| Fatal (msg : string)
| Done (a : A).
Arguments Fatal {A} msg.
Arguments Done {A} a.

(** Computations that talk to the service thread its record. *)
Definition Rms (A : Type) : Type := ResourceMapService -> proc A * ResourceMapService.

#[global] Instance Rms_ret : MRet Rms := fun A a s => (Done a, s).
#[global] Instance Rms_bind : MBind Rms := fun A B f m s =>
  match m s with
  | (Fatal msg, s') => (Fatal msg, s')
  | (Done a, s') => f a s'
  end.

(** [initialise("", "host.docker.internal:3000", false)]: with TLS off
    [grpcDialOptions] has no failing path; a failure of either set-up step
    is fatal to the process. *)
Definition initialise : Rms unit := fun s =>
  let s' := {| rms_dial := rms_dial s; rms_traverse := rms_traverse s;
               rms_dials := S (rms_dials s); rms_requests := rms_requests s |} in
  match rms_dial s (rms_dials s) with
  | Some (ConnectionFailed err) => (Fatal ("Error creating connection: " +:+ err), s')
  | Some (ClientFailed err) => (Fatal ("Error creating resource map client: " +:+ err), s')
  | None => (Done (), s')
  end.

(** [client.Traverse] from the member named [email] over [memberOf] and
    [accessTo] to the repositories. *)
Definition Traverse (email : string) : Rms (result (list (gmap string string))) := fun s =>
  (Done (rms_traverse s (List.length (rms_requests s)) email),
   {| rms_dial := rms_dial s; rms_traverse := rms_traverse s;
      rms_dials := rms_dials s; rms_requests := rms_requests s ++ [email] |}).

(** The body of the loop of [GetAllAccessibleRepos] over [res.Output]. *)
Definition collect (accessibleRepos : list repository) (properties : gmap string string)
  : list repository :=
  let org := match properties !! "org" with Some val => val | None => "" end in
  let repo := match properties !! "name" with Some val => val | None => "" end in
  if negb (bool_decide (repo = "")) && negb (bool_decide (org = ""))
  then accessibleRepos ++ [ {| repo := repo; org := org |} ]
  else accessibleRepos.

Definition GetAllAccessibleRepos (email : string) : Rms (result (list repository)) :=
  _ ← initialise;
  res ← Traverse email;
  match res with
  | Err err => mret (Err err)
  | Ok output => mret (Ok (foldl collect [] output))
  end.

(** ** Package [access]: the validator *)

(** [Validator] handles repository access validation for a specific user.
    [accessibleRepos] is a [map[string]struct{}] used as a set.  The
    read-write mutex [mu] serialises the methods; each method below is one
    critical section. *)
Record Validator : Type := mkValidator {
  userEmail : string;
  accessibleRepos : gset string;
  initialized : bool;
}.

Definition NewValidator (userEmail : string) : Validator :=
  {| userEmail := userEmail; accessibleRepos := ∅; initialized := false |}.

(** [fetchAccessibleRepositories] fetches accessible repositories using
    the resource map service. *)
Definition fetchAccessibleRepositories (v : Validator) : Rms (result (list string)) :=
  r ← GetAllAccessibleRepos (userEmail v);
  match r with
  | Err err => mret (Err ("failed to fetch accessible repositories: " +:+ err))
  | Ok repos =>
      (* Convert repository structs to normalized URL format *)
      mret (Ok (foldl (fun repoURLs repo =>
                         repoURLs ++ ["github.com/" +:+ GetOrg (Some repo) +:+ "/" +:+ GetRepo (Some repo)])
                      [] repos))
  end.

(** [Initialize] fetches and caches the list of accessible repositories
    for the user.  It yields the validator as the call leaves it and the
    error returned. *)
Definition Initialize (v : Validator) : Rms (Validator * option error) :=
  if initialized v then mret (v, None)
  else
    r ← fetchAccessibleRepositories v;
    match r with
    | Err err => mret (v, Some ("failed to fetch accessible repositories: " +:+ err))
    | Ok repos =>
        (* Clear any existing data and populate with fresh results *)
        mret ({| userEmail := userEmail v;
                 accessibleRepos := foldl (fun acc repo => {[repo]} ∪ acc) ∅ repos;
                 initialized := true |}, None)
    end.

(** [IsRepositoryAccessible] checks if the given repository URL is
    accessible to the user: the Go pair [(bool, error)]. *)
Definition IsRepositoryAccessible {parser : UrlParser} (v : Validator) (repoURL : string)
  : bool * option error :=
  if negb (initialized v) then (false, Some "validator not initialized")
  else
    match normalizeRepositoryURL repoURL with
    | Err err => (false, Some ("failed to normalize repository URL: " +:+ err))
    | Ok normalizedURL => (bool_decide (normalizedURL ∈ accessibleRepos v), None)
    end.

(** [GetAccessibleRepositories] returns a copy of the accessible
    repositories set (in no particular order). *)
Definition GetAccessibleRepositories (v : Validator) : list string :=
  elements (accessibleRepos v).

(** The calls a client of the package can make on its validator, and a
    session of such calls on a validator and the service. *)
Inductive Op : Type :=
| OpInitialize
| OpIsRepositoryAccessible (repoURL : string)
| OpGetAccessibleRepositories.

Definition step (op : Op) (v : Validator) : Rms Validator :=
  match op with
  | OpInitialize => r ← Initialize v; mret r.1
  | OpIsRepositoryAccessible _ | OpGetAccessibleRepositories => mret v
  end.

Fixpoint session (ops : list Op) (v : Validator) : Rms Validator :=
  match ops with
  | [] => mret v
  | op :: ops' => v' ← step op v; session ops' v'
  end.

(** ** Package [github]: what the gated handlers are written against *)

(** The helpers that read a tool request ([RequiredParam],
    [OptionalParam], [OptionalPaginationParams]) are pure functions of the
    request; the handlers are written against their signatures. *)
Record PaginationParams : Type := mkPagination {
  Page : Z;
  PerPage : Z;
}.

Class ToolRequest (Request : Type) : Type := {
  RequiredParam : Request -> string -> result string;
  OptionalParam : Request -> string -> result string;
  OptionalPaginationParams : Request -> result PaginationParams;
}.

(** [url.JoinPath] of Go's standard library, used to build the URI of the
    resource a file is returned as. *)
Class UrlJoiner : Type := url_JoinPath : string -> list string -> result string.

(** What a handler sees of an HTTP response: the status, the content type
    and what [io.ReadAll] makes of the body. *)
Record Response : Type := mkResponse {
  StatusCode : Z;
  ContentType : string;
  Body : result string;
}.

(** An error of the GitHub client; a [*github.ErrorResponse] carries the
    status of its response. *)
Record APIError : Type := mkAPIError {
  api_message : string;
  api_status : option Z;
}.

(** The triple [(value, resp, err)] of a go-github call. *)
Inductive reply (A : Type) : Type :=
| Reply (a : A) (resp : Response)
| Failure (err : APIError) (resp : option Response).
Arguments Reply {A} a resp.
Arguments Failure {A} err resp.

(** A value of the provider is known by what the handlers read of it and
    by what [json.Marshal] makes of it. *)
Definition Marshalled : Type := result string.

Record Repository : Type := mkRepo { DefaultBranch : option string }.
Record GitObject : Type := mkGitObject { SHA : option string }.
Record Reference : Type := mkReference { Object : option GitObject; ref_json : Marshalled }.
Record RepositoryContent : Type := mkContent { content_SHA : option string; content_json : Marshalled }.
Record ContentOpts : Type := mkContentOpts { opts_Ref : string; opts_SHA : string }.

Definition GetDefaultBranch (r : Repository) : string := default "" (DefaultBranch r).
Definition GetSHA (o : option GitObject) : string :=
  match o with Some o => default "" (SHA o) | None => "" end.

(** The calls a handler makes on the provider side: on the client
    factories injected into it and on the GitHub clients they hand out. *)
Inductive ProviderCall : Type :=
| getClient
| getRawClient
| Repositories_Get (owner repo : string)
| Repositories_GetCommit (owner repo sha : string) (page perPage : Z)
| Repositories_ListCommits (owner repo sha author : string) (page perPage : Z)
| Repositories_ListBranches (owner repo : string) (page perPage : Z)
| Repositories_GetContents (owner repo path ref : string)
| Git_GetRef (owner repo ref : string)
| Git_CreateRef (owner repo ref : string) (sha : option string)
| RawClient_GetRawContent (owner repo path : string) (opts : ContentOpts).

(** What each of them answers: a factory an error or none, a client call
    its reply. *)
Definition ProviderAnswer (c : ProviderCall) : Type :=
  match c with
  | getClient | getRawClient => option error
  | Repositories_Get _ _ => reply Repository
  | Repositories_GetCommit _ _ _ _ _ => reply Marshalled
  | Repositories_ListCommits _ _ _ _ _ _ => reply Marshalled
  | Repositories_ListBranches _ _ _ _ => reply Marshalled
  | Repositories_GetContents _ _ _ _ => reply (option RepositoryContent * Marshalled)
  | Git_GetRef _ _ _ => reply Reference
  | Git_CreateRef _ _ _ _ => reply Reference
  | RawClient_GetRawContent _ _ _ _ => result Response
  end.

(** The calls a handler makes on what was injected into it: the check of
    the access validator, and the calls on the provider side. *)
Inductive Call : Type :=
| validator_IsRepositoryAccessible (repoURL : string)
| provider (c : ProviderCall).

Coercion provider : ProviderCall >-> Call.

Definition Answer (c : Call) : Type :=
  match c with
  | validator_IsRepositoryAccessible _ => (bool * option error)%type
  | provider c => ProviderAnswer c
  end.

(** A call reaches the provider unless it is the validator's check. *)
Definition reaches_provider (c : Call) : bool :=
  match c with
  | validator_IsRepositoryAccessible _ => false
  | provider _ => true
  end.

(** A handler is a tree of such calls that ends in a value. *)
Inductive Prog (R : Type) : Type :=
| Ret (r : R)
| Vis (c : Call) (k : Answer c -> Prog R).
Arguments Ret {R} r.
Arguments Vis {R} c k.

Fixpoint Prog_bind {A B : Type} (f : A -> Prog B) (m : Prog A) : Prog B :=
  match m with
  | Ret a => f a
  | Vis c k => Vis c (fun x => Prog_bind f (k x))
  end.

#[global] Instance Prog_ret : MRet Prog := fun A a => Ret a.
#[global] Instance Prog_mbind : MBind Prog := fun A B f m => Prog_bind f m.

Definition call (c : Call) : Prog (Answer c) := Vis c Ret.

(** The provider side, as an oracle: the answer to a call given the calls
    made before it. *)
Definition Provider : Type := list Call -> forall c : ProviderCall, ProviderAnswer c.

(** Running a handler against a validator and a provider: the validator
    answers its check, the provider the rest; every call is logged in
    order. *)
Definition answer {parser : UrlParser} (v : Validator) (world : Provider) (done : list Call)
    (c : Call) : Answer c :=
  match c with
  | validator_IsRepositoryAccessible repoURL => IsRepositoryAccessible v repoURL
  | provider c => world done c
  end.

Fixpoint run_from {parser : UrlParser} {R : Type} (v : Validator) (world : Provider)
    (done : list Call) (p : Prog R) : R * list Call :=
  match p with
  | Ret r => (r, done)
  | Vis c k => run_from v world (done ++ [c]) (k (answer v world done c))
  end.

Definition run {parser : UrlParser} {R : Type} (v : Validator) (world : Provider) (p : Prog R)
  : R * list Call :=
  run_from v world [] p.

(** The resource a file is returned as.  A blob carries the base64
    encoding of the body it is made from; it is kept here by that body. *)
Inductive ResourceContents : Type :=
| TextResourceContents (uri text mimeType : string)
| BlobResourceContents (uri body mimeType : string).

(** What a handler hands back: a tool result, a Go error, or a panic. *)
Inductive CallToolResult : Type :=
| ToolResultError (text : string)
| ToolResultText (text : string)
| ToolResultResource (text : string) (resource : ResourceContents)
| GitHubAPIErrorResponse (message : string) (resp : option Response) (err : APIError).

Inductive HandlerResult : Type :=
| ToolResult (r : CallToolResult)
| HandlerError (err : error)
| Panic (what : string).

(** [%q] of [fmt] on a string without quotes, backslashes or control
    bytes. *)
Definition quoted (s : string) : string :=
  String "034" (s +:+ String "034" EmptyString).

(** ** Package [github]: the handlers with access validation *)

(** [if err != nil { return mcp.NewToolResultError(err.Error()), nil }]
    after reading a parameter. *)
Definition param {A : Type} (r : result A) (k : A -> Prog HandlerResult)
  : Prog HandlerResult :=
  match r with
  | Err err => Ret (ToolResult (ToolResultError err))
  | Ok a => k a
  end.

Notation "x '←?' r ; k" := (param r (fun x => k))
  (at level 20, r at level 100, k at level 200, only parsing) : stdpp_scope.

Definition denied (owner repo : string) : string :=
  "Access denied: Repository " +:+ owner +:+ "/" +:+ repo
    +:+ " is not accessible to the current user".

Definition is_not_found (err : APIError) : bool :=
  match api_status err with
  | Some code => (code =? 404)%Z
  | None => false
  end.

(** [resolveGitReference] takes a user-provided ref and sha and resolves
    them into a commit SHA and its fully-qualified reference.  (What it
    records in the context for diagnostics is not part of its result.) *)
Definition resolveGitReference (owner repo ref sha : string) : Prog (result ContentOpts) :=
  (* the tail of the function: the final lookup, unless a reference is at hand *)
  let finish (reference : option Reference) (ref : string) : Prog (result ContentOpts) :=
    match reference with
    | Some reference => Ret (Ok {| opts_Ref := ref; opts_SHA := GetSHA (Object reference) |})
    | None =>
        r ← call (Git_GetRef owner repo ref);
        match r with
        | Failure err _ =>
            Ret (Err ("failed to get final reference for " +:+ quoted ref +:+ ": " +:+ api_message err))
        | Reply reference _ =>
            Ret (Ok {| opts_Ref := ref; opts_SHA := GetSHA (Object reference) |})
        end
    end in
  if negb (bool_decide (sha = "")) then Ret (Ok {| opts_Ref := ""; opts_SHA := sha |})
  else
    let originalRef := ref in
    if bool_decide (originalRef = "") then
      r ← call (Repositories_Get owner repo);
      match r with
      | Failure err _ => Ret (Err ("failed to get repository info: " +:+ api_message err))
      | Reply repoInfo _ => finish None ("refs/heads/" +:+ GetDefaultBranch repoInfo)
      end
    else if HasPrefix originalRef "refs/" then finish None ref
    else if HasPrefix originalRef "heads/" || HasPrefix originalRef "tags/" then
      finish None ("refs/" +:+ originalRef)
    else
      let branchRef := "refs/heads/" +:+ originalRef in
      r ← call (Git_GetRef owner repo branchRef);
      match r with
      | Reply reference _ => finish (Some reference) branchRef
      | Failure err _ =>
          if is_not_found err then
            let tagRef := "refs/tags/" +:+ originalRef in
            r ← call (Git_GetRef owner repo tagRef);
            match r with
            | Reply reference _ => finish (Some reference) tagRef
            | Failure err _ =>
                if is_not_found err then
                  Ret (Err ("could not resolve ref " +:+ quoted originalRef
                              +:+ " as a branch or a tag"))
                else
                  Ret (Err ("failed to get reference for tag '" +:+ originalRef +:+ "': "
                              +:+ api_message err))
            end
          else
            Ret (Err ("failed to get reference for branch '" +:+ originalRef +:+ "': "
                        +:+ api_message err))
      end.

Section handlers.
Context {Request : Type} {params : ToolRequest Request} {joiner : UrlJoiner}.

Definition GetFileContentsWithValidation (request : Request) : Prog HandlerResult :=
  owner ←? RequiredParam request "owner";
  repo ←? RequiredParam request "repo";
  (* ACCESS VALIDATION: Check if the repository is accessible *)
  let repoURL := "github.com/" +:+ owner +:+ "/" +:+ repo in
  '(accessible, err) ← call (validator_IsRepositoryAccessible repoURL);
  match err with
  | Some err => Ret (ToolResult (ToolResultError ("Failed to validate repository access: " +:+ err)))
  | None =>
  if negb accessible then Ret (ToolResult (ToolResultError (denied owner repo))) else
  path ←? RequiredParam request "path";
  ref ←? OptionalParam request "ref";
  sha ←? OptionalParam request "sha";
  err ← call getClient;
  if err is Some _ then Ret (ToolResult (ToolResultError "failed to get GitHub client")) else
  rawOpts ← resolveGitReference owner repo ref sha;
  match rawOpts with
  | Err err => Ret (ToolResult (ToolResultError ("failed to resolve git reference: " +:+ err)))
  | Ok rawOpts =>
  (* what follows the attempt on the raw content API *)
  let contents : Prog HandlerResult :=
    let ref := if negb (bool_decide (opts_SHA rawOpts = "")) then opts_SHA rawOpts else ref in
    let file : Prog HandlerResult :=
      r ← call (Repositories_GetContents owner repo path ref);
      match r with
      | Failure err resp =>
          Ret (ToolResult (GitHubAPIErrorResponse "failed to get file contents" resp err))
      | Reply (file, _) _ =>
          match (match file with Some f => content_json f | None => Ok "null" end) with
          | Err _ => Ret (ToolResult (ToolResultError "failed to marshal response"))
          | Ok r => Ret (ToolResult (ToolResultText r))
          end
      end in
    if HasSuffix path "/" then
      r ← call (Repositories_GetContents owner repo path ref);
      match r with
      | Reply (_, dirContent) resp =>
          if (StatusCode resp =? 200)%Z then
            match dirContent with
            | Err _ => Ret (ToolResult (ToolResultError "failed to marshal response"))
            | Ok r => Ret (ToolResult (ToolResultText r))
            end
          else file
      | Failure _ _ => file
      end
    else file in
  (* If the path is (most likely) not to be a directory, we will first
     try to get the raw content from the GitHub raw content API. *)
  if negb (bool_decide (path = "")) && negb (HasSuffix path "/") then
    (* First, get file info from Contents API to retrieve SHA *)
    r ← call (Repositories_GetContents owner repo path ref);
    match r with
    | Failure err respContents =>
        Ret (ToolResult (GitHubAPIErrorResponse "failed to get file SHA" respContents err))
    | Reply (fileContent, _) _ =>
        match fileContent ≫= content_SHA with
        | None => Ret (ToolResult (ToolResultError "file content SHA is nil"))
        | Some fileSHA =>
            err ← call getRawClient;
            if err is Some _
            then Ret (ToolResult (ToolResultError "failed to get GitHub raw content client")) else
            resp ← call (RawClient_GetRawContent owner repo path rawOpts);
            match resp with
            | Err _ => Ret (ToolResult (ToolResultError "failed to get raw repository content"))
            | Ok resp =>
                if (StatusCode resp =? 200)%Z then
                  (* If the raw content is found, return it directly *)
                  match Body resp with
                  | Err _ => Ret (ToolResult (ToolResultError "failed to read response body"))
                  | Ok body =>
                      let contentType := ContentType resp in
                      let resourceURI :=
                        if negb (bool_decide (sha = "")) then
                          url_JoinPath "repo://" [owner; repo; "sha"; sha; "contents"; path]
                        else if negb (bool_decide (ref = "")) then
                          url_JoinPath "repo://" [owner; repo; ref; "contents"; path]
                        else url_JoinPath "repo://" [owner; repo; "contents"; path] in
                      match resourceURI with
                      | Err err => Ret (HandlerError ("failed to create resource URI: " +:+ err))
                      | Ok resourceURI =>
                          (* Include SHA in the result metadata *)
                          let note (kind : string) :=
                            if negb (bool_decide (fileSHA = "")) then
                              "successfully downloaded " +:+ kind +:+ " file (SHA: " +:+ fileSHA +:+ ")"
                            else "successfully downloaded " +:+ kind +:+ " file" in
                          if HasPrefix contentType "application" || HasPrefix contentType "text" then
                            Ret (ToolResult (ToolResultResource (note "text")
                                   (TextResourceContents resourceURI body contentType)))
                          else
                            Ret (ToolResult (ToolResultResource (note "binary")
                                   (BlobResourceContents resourceURI body contentType)))
                      end
                  end
                else contents
            end
        end
    end
  else contents
  end
  end.

Definition GetCommitWithValidation (request : Request) : Prog HandlerResult :=
  owner ←? RequiredParam request "owner";
  repo ←? RequiredParam request "repo";
  (* ACCESS VALIDATION: Check if the repository is accessible *)
  let repoURL := "github.com/" +:+ owner +:+ "/" +:+ repo in
  '(accessible, err) ← call (validator_IsRepositoryAccessible repoURL);
  match err with
  | Some err => Ret (ToolResult (ToolResultError ("Failed to validate repository access: " +:+ err)))
  | None =>
  if negb accessible then Ret (ToolResult (ToolResultError (denied owner repo))) else
  sha ←? RequiredParam request "sha";
  pagination ←? OptionalPaginationParams request;
  err ← call getClient;
  if err is Some err then Ret (HandlerError ("failed to get GitHub client: " +:+ err)) else
  r ← call (Repositories_GetCommit owner repo sha (Page pagination) (PerPage pagination));
  match r with
  | Failure err resp =>
      Ret (ToolResult (GitHubAPIErrorResponse ("failed to get commit: " +:+ sha) resp err))
  | Reply commit resp =>
      if negb (StatusCode resp =? 200)%Z then
        match Body resp with
        | Err err => Ret (HandlerError ("failed to read response body: " +:+ err))
        | Ok body => Ret (ToolResult (ToolResultError ("failed to get commit: " +:+ body)))
        end
      else
        match commit with
        | Err err => Ret (HandlerError ("failed to marshal response: " +:+ err))
        | Ok r => Ret (ToolResult (ToolResultText r))
        end
  end
  end.

Definition ListCommitsWithValidation (request : Request) : Prog HandlerResult :=
  owner ←? RequiredParam request "owner";
  repo ←? RequiredParam request "repo";
  (* ACCESS VALIDATION: Check if the repository is accessible *)
  let repoURL := "github.com/" +:+ owner +:+ "/" +:+ repo in
  '(accessible, err) ← call (validator_IsRepositoryAccessible repoURL);
  match err with
  | Some err => Ret (ToolResult (ToolResultError ("Failed to validate repository access: " +:+ err)))
  | None =>
  if negb accessible then Ret (ToolResult (ToolResultError (denied owner repo))) else
  sha ←? OptionalParam request "sha";
  author ←? OptionalParam request "author";
  pagination ←? OptionalPaginationParams request;
  (* Set default perPage to 30 if not provided *)
  let perPage := if (PerPage pagination =? 0)%Z then 30%Z else PerPage pagination in
  err ← call getClient;
  if err is Some err then Ret (HandlerError ("failed to get GitHub client: " +:+ err)) else
  r ← call (Repositories_ListCommits owner repo sha author (Page pagination) perPage);
  match r with
  | Failure err resp =>
      Ret (ToolResult (GitHubAPIErrorResponse "failed to list commits" resp err))
  | Reply commits resp =>
      if negb (StatusCode resp =? 200)%Z then
        match Body resp with
        | Err err => Ret (HandlerError ("failed to read response body: " +:+ err))
        | Ok body => Ret (ToolResult (ToolResultError ("failed to list commits: " +:+ body)))
        end
      else
        match commits with
        | Err err => Ret (HandlerError ("failed to marshal response: " +:+ err))
        | Ok r => Ret (ToolResult (ToolResultText r))
        end
  end
  end.

Definition ListBranchesWithValidation (request : Request) : Prog HandlerResult :=
  owner ←? RequiredParam request "owner";
  repo ←? RequiredParam request "repo";
  (* ACCESS VALIDATION: Check if the repository is accessible *)
  let repoURL := "github.com/" +:+ owner +:+ "/" +:+ repo in
  '(accessible, err) ← call (validator_IsRepositoryAccessible repoURL);
  match err with
  | Some err => Ret (ToolResult (ToolResultError ("Failed to validate repository access: " +:+ err)))
  | None =>
  if negb accessible then Ret (ToolResult (ToolResultError (denied owner repo))) else
  pagination ←? OptionalPaginationParams request;
  err ← call getClient;
  if err is Some err then Ret (HandlerError ("failed to get GitHub client: " +:+ err)) else
  r ← call (Repositories_ListBranches owner repo (Page pagination) (PerPage pagination));
  match r with
  | Failure err resp =>
      Ret (ToolResult (GitHubAPIErrorResponse "failed to list branches" resp err))
  | Reply branches resp =>
      if negb (StatusCode resp =? 200)%Z then
        match Body resp with
        | Err err => Ret (HandlerError ("failed to read response body: " +:+ err))
        | Ok body => Ret (ToolResult (ToolResultError ("failed to list branches: " +:+ body)))
        end
      else
        match branches with
        | Err err => Ret (HandlerError ("failed to marshal response: " +:+ err))
        | Ok r => Ret (ToolResult (ToolResultText r))
        end
  end
  end.

Definition CreateBranchWithValidation (request : Request) : Prog HandlerResult :=
  owner ←? RequiredParam request "owner";
  repo ←? RequiredParam request "repo";
  (* ACCESS VALIDATION: Check if the repository is accessible *)
  let repoURL := "github.com/" +:+ owner +:+ "/" +:+ repo in
  '(accessible, err) ← call (validator_IsRepositoryAccessible repoURL);
  match err with
  | Some err => Ret (ToolResult (ToolResultError ("Failed to validate repository access: " +:+ err)))
  | None =>
  if negb accessible then Ret (ToolResult (ToolResultError (denied owner repo))) else
  branch ←? RequiredParam request "branch";
  fromBranch ←? OptionalParam request "from_branch";
  err ← call getClient;
  if err is Some err then Ret (HandlerError ("failed to get GitHub client: " +:+ err)) else
  (* Get SHA of source branch, then create new branch *)
  let create (fromBranch : string) : Prog HandlerResult :=
    r ← call (Git_GetRef owner repo ("refs/heads/" +:+ fromBranch));
    match r with
    | Failure err resp =>
        Ret (ToolResult (GitHubAPIErrorResponse "failed to get reference" resp err))
    | Reply ref _ =>
        match Object ref with
        | None => Ret (Panic "nil pointer dereference: ref.Object")
        | Some object =>
            r ← call (Git_CreateRef owner repo ("refs/heads/" +:+ branch) (SHA object));
            match r with
            | Failure err resp =>
                Ret (ToolResult (GitHubAPIErrorResponse "failed to create branch" resp err))
            | Reply createdRef _ =>
                match ref_json createdRef with
                | Err err => Ret (HandlerError ("failed to marshal response: " +:+ err))
                | Ok r => Ret (ToolResult (ToolResultText r))
                end
            end
        end
    end in
  if bool_decide (fromBranch = "") then
    (* Get default branch if from_branch not specified *)
    r ← call (Repositories_Get owner repo);
    match r with
    | Failure err resp =>
        Ret (ToolResult (GitHubAPIErrorResponse "failed to get repository" resp err))
    | Reply repository _ =>
        match DefaultBranch repository with
        | None => Ret (Panic "nil pointer dereference: repository.DefaultBranch")
        | Some fromBranch => create fromBranch
        end
    end
  else create fromBranch
  end.

(** The tools registered with access validation, by tool name. *)
Inductive GatedTool : Type :=
| get_file_contents
| get_commit
| list_commits
| list_branches
| create_branch.

Definition handler (tool : GatedTool) : Request -> Prog HandlerResult :=
  match tool with
  | get_file_contents => GetFileContentsWithValidation
  | get_commit => GetCommitWithValidation
  | list_commits => ListCommitsWithValidation
  | list_branches => ListBranchesWithValidation
  | create_branch => CreateBranchWithValidation
  end.

End handlers.

(** ** Package [github]: the same tools without validation *)

Section plain_handlers.
Context {Request : Type} {params : ToolRequest Request}.

Definition GetCommit (request : Request) : Prog HandlerResult :=
  owner ←? RequiredParam request "owner";
  repo ←? RequiredParam request "repo";
  sha ←? RequiredParam request "sha";
  pagination ←? OptionalPaginationParams request;
  err ← call getClient;
  if err is Some err then Ret (HandlerError ("failed to get GitHub client: " +:+ err)) else
  r ← call (Repositories_GetCommit owner repo sha (Page pagination) (PerPage pagination));
  match r with
  | Failure err resp =>
      Ret (ToolResult (GitHubAPIErrorResponse ("failed to get commit: " +:+ sha) resp err))
  | Reply commit resp =>
      if negb (StatusCode resp =? 200)%Z then
        match Body resp with
        | Err err => Ret (HandlerError ("failed to read response body: " +:+ err))
        | Ok body => Ret (ToolResult (ToolResultError ("failed to get commit: " +:+ body)))
        end
      else
        match commit with
        | Err err => Ret (HandlerError ("failed to marshal response: " +:+ err))
        | Ok r => Ret (ToolResult (ToolResultText r))
        end
  end.

(** [ListCommits] creates a tool to get commits of a branch in a
    repository. *)
Definition ListCommits (request : Request) : Prog HandlerResult :=
  owner ←? RequiredParam request "owner";
  repo ←? RequiredParam request "repo";
  sha ←? OptionalParam request "sha";
  author ←? OptionalParam request "author";
  pagination ←? OptionalPaginationParams request;
  (* Set default perPage to 30 if not provided *)
  let perPage := if (PerPage pagination =? 0)%Z then 30%Z else PerPage pagination in
  err ← call getClient;
  if err is Some err then Ret (HandlerError ("failed to get GitHub client: " +:+ err)) else
  r ← call (Repositories_ListCommits owner repo sha author (Page pagination) perPage);
  match r with
  | Failure err resp =>
      Ret (ToolResult (GitHubAPIErrorResponse ("failed to list commits: " +:+ sha) resp err))
  | Reply commits resp =>
      if negb (StatusCode resp =? 200)%Z then
        match Body resp with
        | Err err => Ret (HandlerError ("failed to read response body: " +:+ err))
        | Ok body => Ret (ToolResult (ToolResultError ("failed to list commits: " +:+ body)))
        end
      else
        match commits with
        | Err err => Ret (HandlerError ("failed to marshal response: " +:+ err))
        | Ok r => Ret (ToolResult (ToolResultText r))
        end
  end.

(** [ListBranches] creates a tool to list branches in a GitHub
    repository. *)
Definition ListBranches (request : Request) : Prog HandlerResult :=
  owner ←? RequiredParam request "owner";
  repo ←? RequiredParam request "repo";
  pagination ←? OptionalPaginationParams request;
  err ← call getClient;
  if err is Some err then Ret (HandlerError ("failed to get GitHub client: " +:+ err)) else
  r ← call (Repositories_ListBranches owner repo (Page pagination) (PerPage pagination));
  match r with
  | Failure err resp =>
      Ret (ToolResult (GitHubAPIErrorResponse "failed to list branches" resp err))
  | Reply branches resp =>
      if negb (StatusCode resp =? 200)%Z then
        match Body resp with
        | Err err => Ret (HandlerError ("failed to read response body: " +:+ err))
        | Ok body => Ret (ToolResult (ToolResultError ("failed to list branches: " +:+ body)))
        end
      else
        match branches with
        | Err err => Ret (HandlerError ("failed to marshal response: " +:+ err))
        | Ok r => Ret (ToolResult (ToolResultText r))
        end
  end.

(** [CreateBranch] creates a tool to create a new branch. *)
Definition CreateBranch (request : Request) : Prog HandlerResult :=
  owner ←? RequiredParam request "owner";
  repo ←? RequiredParam request "repo";
  branch ←? RequiredParam request "branch";
  fromBranch ←? OptionalParam request "from_branch";
  err ← call getClient;
  if err is Some err then Ret (HandlerError ("failed to get GitHub client: " +:+ err)) else
  (* Get SHA of source branch, then create new branch *)
  let create (fromBranch : string) : Prog HandlerResult :=
    r ← call (Git_GetRef owner repo ("refs/heads/" +:+ fromBranch));
    match r with
    | Failure err resp =>
        Ret (ToolResult (GitHubAPIErrorResponse "failed to get reference" resp err))
    | Reply ref _ =>
        match Object ref with
        | None => Ret (Panic "nil pointer dereference: ref.Object")
        | Some object =>
            r ← call (Git_CreateRef owner repo ("refs/heads/" +:+ branch) (SHA object));
            match r with
            | Failure err resp =>
                Ret (ToolResult (GitHubAPIErrorResponse "failed to create branch" resp err))
            | Reply createdRef _ =>
                match ref_json createdRef with
                | Err err => Ret (HandlerError ("failed to marshal response: " +:+ err))
                | Ok r => Ret (ToolResult (ToolResultText r))
                end
            end
        end
    end in
  if bool_decide (fromBranch = "") then
    (* Get default branch if from_branch not specified *)
    r ← call (Repositories_Get owner repo);
    match r with
    | Failure err resp =>
        Ret (ToolResult (GitHubAPIErrorResponse "failed to get repository" resp err))
    | Reply repository _ =>
        match DefaultBranch repository with
        | None => Ret (Panic "nil pointer dereference: repository.DefaultBranch")
        | Some fromBranch => create fromBranch
        end
    end
  else create fromBranch.

End plain_handlers.

(** ** Package [github]: [filterPaths] *)

(** A [*github.TreeEntry]: the entry may be nil, and so may its fields;
    the getters answer the empty string then. *)
Record TreeEntry : Type := mkTreeEntry {
  entry_Type : option string;
  entry_Path : option string;
}.

Definition GetType (entry : option TreeEntry) : string :=
  match entry with Some e => default "" (entry_Type e) | None => "" end.

Definition GetPath (entry : option TreeEntry) : string :=
  match entry with Some e => default "" (entry_Path e) | None => "" end.

(** The loop of [filterPaths] over the entries that are left, with the
    paths matched so far. *)
Fixpoint filterPaths_loop (entries : list (option TreeEntry)) (path : string)
    (dirOnly : bool) (maxResults : Z) (matchedPaths : list string) : list string :=
  match entries with
  | [] => matchedPaths
  | entry :: entries' =>
      if (Z.of_nat (List.length matchedPaths) =? maxResults)%Z then
        matchedPaths (* Limit the number of results to maxResults *)
      else if dirOnly && negb (bool_decide (GetType entry = "tree")) then
        (* Skip non-directory entries if dirOnly is true *)
        filterPaths_loop entries' path dirOnly maxResults matchedPaths
      else
        let entryPath := GetPath entry in
        if bool_decide (entryPath = "") then
          (* Skip empty paths *)
          filterPaths_loop entries' path dirOnly maxResults matchedPaths
        else if HasSuffix entryPath path then
          let entryPath :=
            (* Return directories with a trailing slash *)
            if bool_decide (GetType entry = "tree") then entryPath +:+ "/" else entryPath in
          filterPaths_loop entries' path dirOnly maxResults (matchedPaths ++ [entryPath])
        else filterPaths_loop entries' path dirOnly maxResults matchedPaths
  end.

(** [filterPaths] filters the entries in a GitHub tree to find paths that
    match the given suffix.  [maxResults] limits the number of results, a
    [maxResults] of -1 means no limit.  Directories are returned with a
    trailing slash. *)
Definition filterPaths (entries : list (option TreeEntry)) (path : string) (maxResults : Z)
  : list string :=
  (* Remove trailing slash for matching purposes, but flag whether we only
     want directories. *)
  let dirOnly := HasSuffix path "/" in
  let path := if dirOnly then TrimSuffix path "/" else path in
  filterPaths_loop entries path dirOnly maxResults [].

(** ** Package [access]: the options of the gRPC connection *)

Section dial_options.
Variable CertPool : Type.

Inductive TransportCredentials : Type :=
| insecure_NewCredentials
| credentials_NewTLS (rootCAs : CertPool).

Inductive DialOption : Type :=
| WithAuthority (authority : string)
| WithTransportCredentials (creds : TransportCredentials).

(** A function either returns or panics. *)
Inductive may_panic (A : Type) : Type :=
| Panics (what : string)
| Returns (a : A).

(** [grpcDialOptions], given what [loadSystemRootCAs] yields when it is
    asked. *)
Definition grpcDialOptions (loadSystemRootCAs : result CertPool) (authority : string)
    (tlsEnabled : bool) : may_panic (list DialOption) :=
  let opts := [] in
  let opts := if negb (bool_decide (authority = "")) then opts ++ [WithAuthority authority]
              else opts in
  if negb tlsEnabled then
    Returns _ (opts ++ [WithTransportCredentials insecure_NewCredentials])
  else
    match loadSystemRootCAs with
    | Err err => Panics _ ("failed to load root CAs: " +:+ err)
    | Ok rootCAs => Returns _ (opts ++ [WithTransportCredentials (credentials_NewTLS rootCAs)])
    end.

End dial_options.
Arguments insecure_NewCredentials {CertPool}.
Arguments credentials_NewTLS {CertPool} rootCAs.
Arguments WithAuthority {CertPool} authority.
Arguments WithTransportCredentials {CertPool} creds.
Arguments Panics {A} what.
Arguments Returns {A} a.
Arguments grpcDialOptions {CertPool} loadSystemRootCAs authority tlsEnabled.

(** ** Notions used to state the properties *)

(** The key under which [fetchAccessibleRepositories] files a repository. *)
Definition repoURL_of (r : repository) : string :=
  "github.com/" +:+ org r +:+ "/" +:+ repo r.

(** A graph node is complete when it has both an [org] and a [name]
    property and neither is empty; it then denotes a repository. *)
Definition complete (properties : gmap string string) : option repository :=
  match properties !! "org", properties !! "name" with
  | Some org, Some name =>
      if bool_decide (org = "") || bool_decide (name = "") then None
      else Some {| repo := name; org := org |}
  | _, _ => None
  end.

(** The validator that a successful population leaves. *)
Definition populated (v : Validator) (repos : list repository) : Validator :=
  {| userEmail := userEmail v;
     accessibleRepos := foldl (fun acc r => {[r]} ∪ acc) ∅ (repoURL_of <$> repos);
     initialized := true |}.

(** The shape [github.com/<org>/<repo>] with both parts non-empty. *)
Definition well_formed_key (key : string) : Prop :=
  ∃ org repo : string, org ≠ "" ∧ repo ≠ "" ∧ key = "github.com/" +:+ org +:+ "/" +:+ repo.

(** Following the specification's words for the population of the access
    set: every returned reference is normalized, and one that fails
    normalization is skipped. *)
Definition spec_populate {parser : UrlParser} (refs : list string) : gset string :=
  list_to_set (omap (fun ref => match normalizeRepositoryURL ref with
                                | Ok key => Some key
                                | Err _ => None
                                end) refs).

(** The validator's check of the repository [owner/repo]. *)
Definition gate_check (owner repo : string) : Call :=
  validator_IsRepositoryAccessible ("github.com/" +:+ owner +:+ "/" +:+ repo).

(** A handler is gated when it either returns at once because the owner
    or the repo parameter cannot be read, or begins with the validator's
    check of that repository and returns the denial when the check answers
    false without error. *)
Inductive gated {Request : Type} {params : ToolRequest Request} (request : Request)
  : Prog HandlerResult -> Prop :=
| gated_no_owner (err : error) (r : HandlerResult) :
    RequiredParam request "owner" = Err err ->
    gated request (Ret r)
| gated_no_repo (err : error) (r : HandlerResult) :
    RequiredParam request "repo" = Err err ->
    gated request (Ret r)
| gated_checked (owner repo : string) (k : bool * option error -> Prog HandlerResult) :
    RequiredParam request "owner" = Ok owner ->
    RequiredParam request "repo" = Ok repo ->
    k (false, None) = Ret (ToolResult (ToolResultError (denied owner repo))) ->
    gated request
      (Vis (validator_IsRepositoryAccessible ("github.com/" +:+ owner +:+ "/" +:+ repo)) k).

(** A property of calls holds along every path of a program. *)
Fixpoint always {R : Type} (P : Call -> Prop) (p : Prog R) : Prop :=
  match p with
  | Ret _ => True
  | Vis c k => P c ∧ ∀ x, always P (k x)
  end.

(** The repository a provider call is about, when it is about one. *)
Definition target (c : ProviderCall) : option (string * string) :=
  match c with
  | getClient | getRawClient => None
  | Repositories_Get owner repo
  | Repositories_GetCommit owner repo _ _ _
  | Repositories_ListCommits owner repo _ _ _ _
  | Repositories_ListBranches owner repo _ _
  | Repositories_GetContents owner repo _ _
  | Git_GetRef owner repo _
  | Git_CreateRef owner repo _ _
  | RawClient_GetRawContent owner repo _ _ => Some (owner, repo)
  end.

(** The one call of the handlers that writes. *)
Definition writes (c : Call) : bool :=
  match c with
  | provider (Git_CreateRef _ _ _ _) => true
  | _ => false
  end.

(** The tools without validation, by the name of the gated tool they are
    registered as. *)
Definition plain_handler {Request : Type} {params : ToolRequest Request} (tool : GatedTool)
  : option (Request -> Prog HandlerResult) :=
  match tool with
  | get_commit => Some GetCommit
  | list_branches => Some ListBranches
  | create_branch => Some CreateBranch
  | get_file_contents | list_commits => None
  end.

(** A result without the message of a provider failure. *)
Definition without_failure_message (r : HandlerResult) : HandlerResult :=
  match r with
  | ToolResult (GitHubAPIErrorResponse _ resp err) =>
      ToolResult (GitHubAPIErrorResponse "" resp err)
  | r => r
  end.

(** What a match of [filterPaths] contributes: nothing for an entry that
    is skipped, the path (with a slash for a directory) for one that
    matches. *)
Definition path_match (path : string) (dirOnly : bool) (entry : option TreeEntry)
  : option string :=
  if dirOnly && negb (bool_decide (GetType entry = "tree")) then None
  else if bool_decide (GetPath entry = "") then None
  else if HasSuffix (GetPath entry) path then
    Some (if bool_decide (GetType entry = "tree") then GetPath entry +:+ "/" else GetPath entry)
  else None.

(** A property of the calls made and of the value returned holds along
    every path of a program. *)
Fixpoint along {R : Type} (P : list Call -> R -> Prop) (p : Prog R) : Prop :=
  match p with
  | Ret r => P [] r
  | Vis c k => ∀ x, along (fun calls r => P (c :: calls) r) (k x)
  end.

Definition is_credentials {CertPool : Type} (o : DialOption CertPool) : bool :=
  match o with
  | WithTransportCredentials _ => true
  | WithAuthority _ => false
  end.

(** The provider as it answers once the calls [before] have been made. *)
Definition after (before : list Call) (world : Provider) : Provider :=
  fun done => world (before ++ done).

(** Two programs make the same calls and return values that a view [f] of
    the results does not tell apart. *)
Inductive agree {R R' : Type} (f : R -> R') : Prog R -> Prog R -> Prop :=
| agree_Ret (a b : R) : f a = f b -> agree f (Ret a) (Ret b)
| agree_Vis (c : Call) (k k' : Answer c -> Prog R) :
    (∀ x, agree f (k x) (k' x)) -> agree f (Vis c k) (Vis c k').

(** What a call of a gated handler may be, for a request about
    [owner/repo]: the check of that repository, a client factory, or a
    call on that repository. *)
Definition about (owner repo : string) (c : Call) : Prop :=
  match c with
  | validator_IsRepositoryAccessible repoURL =>
      repoURL = "github.com/" +:+ owner +:+ "/" +:+ repo
  | provider c => target c = None ∨ target c = Some (owner, repo)
  end.

(** The result of a handler whose check came back with an error. *)
Definition validation_failed (err : error) : HandlerResult :=
  ToolResult (ToolResultError ("Failed to validate repository access: " +:+ err)).

(** The page and page size a [Repositories.ListCommits] call must carry
    for a request: those of the request, with 30 for a page size of 0. *)
Definition pages_of {Request : Type} {params : ToolRequest Request} (request : Request)
    (c : Call) : Prop :=
  ∀ owner repo sha author page perPage,
    c = provider (Repositories_ListCommits owner repo sha author page perPage) ->
    perPage ≠ 0%Z
    ∧ ∃ pagination, OptionalPaginationParams request = Ok pagination
        ∧ page = Page pagination
        ∧ perPage = (if (PerPage pagination =? 0)%Z then 30%Z else PerPage pagination).

(** ** Concrete services and requests, to run the definitions on *)

Definition graph_node (org name : string) : gmap string string :=
  <["org" := org]> (<["name" := name]> ∅).

(** A service that connects and gives every [Traverse] the same answer,
    after some dials and requests, and at the start. *)
Definition service_at (reply : result (list (gmap string string))) (dials : nat)
    (requests : list string) : ResourceMapService :=
  {| rms_dial := fun _ => None; rms_traverse := fun _ _ => reply;
     rms_dials := dials; rms_requests := requests |}.

Definition service (reply : result (list (gmap string string))) : ResourceMapService :=
  service_at reply 0 [].

(** A request whose arguments are strings, by name; a required argument
    must be present and non-empty, an optional one defaults to the empty
    string, and the pagination is the default one. *)
Definition arguments_request : ToolRequest (list (string * string)) :=
  {| RequiredParam := fun r p =>
       match (list_to_map r : gmap string string) !! p with
       | Some val => if bool_decide (val = "") then Err ("missing required parameter: " +:+ p)
                     else Ok val
       | None => Err ("missing required parameter: " +:+ p)
       end;
     OptionalParam := fun r p => Ok (default "" ((list_to_map r : gmap string string) !! p));
     OptionalPaginationParams := fun _ => Ok {| Page := 1; PerPage := 30 |} |}.

(** [url.JoinPath] on a base that parses and elements that are plain
    names (no empty element, no dot segment, no slash to clean): the
    elements follow the base, separated by slashes. *)
Fixpoint join_names (elem : list string) : string :=
  match elem with
  | [] => ""
  | [name] => name
  | name :: elem' => name +:+ "/" +:+ join_names elem'
  end.

Definition names_JoinPath : UrlJoiner := fun base elem => Ok (base +:+ join_names elem).

(** A provider on which every call succeeds: the clients are handed out,
    and each request is answered with status 200 and a fixed value. *)
Definition ok_response : Response :=
  {| StatusCode := 200; ContentType := "text/plain"; Body := Ok "body" |}.

Definition obliging_provider : Provider := fun _ c =>
  match c with
  | getClient => None
  | getRawClient => None
  | Repositories_Get _ _ => Reply {| DefaultBranch := Some "main" |} ok_response
  | Repositories_GetCommit _ _ _ _ _ => Reply (Ok "{commit}") ok_response
  | Repositories_ListCommits _ _ _ _ _ _ => Reply (Ok "[commits]") ok_response
  | Repositories_ListBranches _ _ _ _ => Reply (Ok "[branches]") ok_response
  | Repositories_GetContents _ _ _ _ =>
      Reply (Some {| content_SHA := Some "abc123"; content_json := Ok "{file}" |}, Ok "[dir]")
            ok_response
  | Git_GetRef _ _ _ =>
      Reply {| Object := Some {| SHA := Some "abc123" |}; ref_json := Ok "{ref}" |} ok_response
  | Git_CreateRef _ _ _ _ =>
      Reply {| Object := Some {| SHA := Some "abc123" |}; ref_json := Ok "{created}" |} ok_response
  | RawClient_GetRawContent _ _ _ _ => Ok ok_response
  end.

(** A validator whose population against a service succeeded, or the new
    validator when it did not. *)
Definition initialized_validator (email : string) (s : ResourceMapService) : Validator :=
  match Initialize (NewValidator email) s with
  | (Done (v, None), _) => v
  | _ => NewValidator email
  end.

(** A tree with a directory, two files of the same name, a nil entry
    and an entry without a path. *)
Definition example_tree : list (option TreeEntry) :=
  [ Some {| entry_Type := Some "tree"; entry_Path := Some "src" |};
    Some {| entry_Type := Some "blob"; entry_Path := Some "src/main.go" |};
    None;
    Some {| entry_Type := Some "blob"; entry_Path := None |};
    Some {| entry_Type := Some "tree"; entry_Path := Some "cmd/src" |};
    Some {| entry_Type := Some "blob"; entry_Path := Some "cmd/main.go" |} ].

(** A provider that knows tags only: every lookup of a branch comes back
    as not found, everything else succeeds. *)
Definition tags_only_provider : Provider := fun done c =>
  match c with
  | Git_GetRef owner repo ref =>
      if HasPrefix ref "refs/heads/" then
        Failure {| api_message := "Not Found"; api_status := Some 404%Z |} None
      else obliging_provider done (Git_GetRef owner repo ref)
  | c => obliging_provider done c
  end.

(** A service whose first [Traverse] fails and whose later ones answer. *)
Definition flaky_service (output : list (gmap string string)) : ResourceMapService :=
  {| rms_dial := fun _ => None;
     rms_traverse := fun n _ => if n =? 0 then Err "rpc error: unavailable" else Ok output;
     rms_dials := 0; rms_requests := [] |}.

(** A service that cannot be connected to. *)
Definition unreachable_service : ResourceMapService :=
  {| rms_dial := fun _ => Some (ConnectionFailed "invalid target");
     rms_traverse := fun _ _ => Ok [];
     rms_dials := 0; rms_requests := [] |}.

(** The validator of a principal with access to octo/hello, and the run
    of a gated tool against it and the obliging provider. *)
Definition octo_validator : Validator :=
  initialized_validator "dev@example.com" (service (Ok [graph_node "octo" "hello"])).

Definition run_tool (tool : GatedTool) (request : list (string * string))
  : HandlerResult * list Call :=
  run (parser:=net_url_Parse) octo_validator obliging_provider
    (handler (params:=arguments_request) (joiner:=names_JoinPath) tool request).

(** ** Facts about the string functions *)

Section string_facts.
Implicit Types s t prefix suffix : string.

Lemma append_cons c s t : String c s +:+ t = String c (s +:+ t).
Proof. reflexivity. Qed.

Lemma append_nil s : "" +:+ s = s.
Proof. reflexivity. Qed.

Lemma len_append s t : len (s +:+ t) = len s + len t.
Proof.
  induction s as [|c s IH]; [done|].
  rewrite append_cons. cbn. by rewrite IH.
Qed.

Lemma take_append_len s t : take (len s) (s +:+ t) = s.
Proof.
  induction s as [|c s IH]; [done|].
  rewrite append_cons. cbn. by rewrite IH.
Qed.

Lemma drop_append_len s t : drop (len s) (s +:+ t) = t.
Proof.
  induction s as [|c s IH]; [done|].
  rewrite append_cons. cbn. done.
Qed.

Lemma take_drop n s : take n s +:+ drop n s = s.
Proof.
  revert s. induction n as [|n IH]; intros [|c s]; try done.
  cbn [take drop]. by rewrite append_cons, IH.
Qed.

Lemma HasPrefix_app prefix s : HasPrefix (prefix +:+ s) prefix = true.
Proof.
  unfold HasPrefix. rewrite take_append_len, len_append.
  rewrite bool_decide_eq_true_2 by done.
  rewrite andb_true_r. apply Nat.leb_le. lia.
Qed.

Lemma TrimPrefix_app prefix s : TrimPrefix (prefix +:+ s) prefix = s.
Proof. unfold TrimPrefix. by rewrite HasPrefix_app, drop_append_len. Qed.

Lemma Count_app s t sep : Count (s +:+ t) sep = Count s sep + Count t sep.
Proof.
  induction s as [|c s IH]; [done|].
  rewrite append_cons. cbn. rewrite IH. lia.
Qed.

(** Cutting a suffix that holds no separator keeps the separators. *)
Lemma Count_TrimSuffix s suffix sep :
  Count suffix sep = 0 -> Count (TrimSuffix s suffix) sep = Count s sep.
Proof.
  intros Hsuffix. unfold TrimSuffix, HasSuffix.
  destruct (len suffix <=? len s); cbn; [|done].
  case_bool_decide as Hdrop; [|done].
  rewrite <- (take_drop (len s - len suffix) s) at 3.
  rewrite Count_app, Hdrop, Hsuffix. lia.
Qed.

Lemma Split_len s sep : List.length (Split s sep) = S (Count s sep).
Proof.
  induction s as [|c s IH]; cbn; [done|].
  case_bool_decide; cbn; [by rewrite IH|].
  destruct (Split s sep); cbn in *; lia.
Qed.

Lemma ToLower_fixed s t : ToLower t = t -> ToLower s ≠ t -> s ≠ t.
Proof. intros Ht Hs ->. done. Qed.

End string_facts.

(** A valid repository path has exactly one slash. *)
Lemma isValidRepoPath_Count path : isValidRepoPath path = true -> Count path "/" = 1.
Proof.
  unfold isValidRepoPath. case_bool_decide; [done|].
  rewrite Split_len.
  destruct (S (Count path "/") =? 2) eqn:Hlen; cbn; [|done].
  apply Nat.eqb_eq in Hlen. lia.
Qed.

Lemma isValidRepoPath_TrimSuffix path :
  Count path "/" ≠ 1 -> isValidRepoPath (TrimSuffix path ".git") = false.
Proof.
  intros Hcount. destruct (isValidRepoPath _) eqn:Hvalid; [|done].
  apply isValidRepoPath_Count in Hvalid.
  rewrite Count_TrimSuffix in Hvalid by done. done.
Qed.

(** ** The normalizer *)

Section normalizer.
Context {parser : UrlParser}.

Lemma HasPrefix_head c c' s prefix :
  c ≠ c' -> HasPrefix (String c s) (String c' prefix) = false.
Proof.
  intros Hne. unfold HasPrefix. cbn [len take].
  rewrite (bool_decide_eq_false_2 (String c _ = String c' _)) by congruence.
  apply andb_false_r.
Qed.

(** The three shapes of a reference are told apart by its first bytes: a
    reference that starts with the host has no scheme. *)
Lemma host_prefixed_no_scheme path :
  HasPrefix ("github.com/" +:+ path) "http://" || HasPrefix ("github.com/" +:+ path) "https://"
  = false.
Proof.
  change ("github.com/" +:+ path) with (String "g" ("ithub.com/" +:+ path)).
  by rewrite !HasPrefix_head.
Qed.

Lemma normalize_host_prefixed path :
  normalizeRepositoryURL ("github.com/" +:+ path) =
  if isValidRepoPath (TrimSuffix path ".git")
  then Ok ("github.com/" +:+ TrimSuffix path ".git")
  else Err (unsupported ("github.com/" +:+ path)).
Proof.
  unfold normalizeRepositoryURL.
  rewrite host_prefixed_no_scheme, HasPrefix_app, TrimPrefix_app.
  rewrite bool_decide_eq_false_2 by done.
  by destruct (isValidRepoPath _).
Qed.

(** C2 (the code at the failing input).  The normalizer keeps the letter
    case of owner and repo: the references OWNER/REPO and owner/repo, which
    differ in case only, get different keys, and the key of the first is
    not lower-cased. *)
Lemma normalize_keeps_letter_case :
  normalizeRepositoryURL "OWNER/REPO" = Ok "github.com/OWNER/REPO"
  ∧ normalizeRepositoryURL "owner/repo" = Ok "github.com/owner/repo"
  ∧ normalizeRepositoryURL "github.com/OwNeR/RePoSiToRy" = Ok "github.com/OwNeR/RePoSiToRy".
Proof. repeat split; reflexivity. Qed.

(** C5 (amended).  Normalization is strict about the number of segments:
    a reference whose path has more than two segments after the host is
    rejected as unsupported, in each of the three shapes (host-prefixed,
    bare, and URL with a scheme); nothing is truncated. *)
Theorem normalize_rejects_extra_segments (repoURL : string) :
  (∀ path, repoURL = "github.com/" +:+ path ->
           2 < List.length (Split path "/") ->
           normalizeRepositoryURL repoURL = Err (unsupported repoURL))
  ∧ (HasPrefix repoURL "http://" || HasPrefix repoURL "https://" = false ->
     HasPrefix repoURL "github.com/" = false ->
     2 < List.length (Split repoURL "/") ->
     normalizeRepositoryURL repoURL = Err (unsupported repoURL))
  ∧ (∀ u, HasPrefix repoURL "http://" || HasPrefix repoURL "https://" = true ->
          url_Parse repoURL = Ok u ->
          2 < List.length (Split (TrimPrefix (Path u) "/") "/") ->
          normalizeRepositoryURL repoURL = Err (unsupported repoURL)).
Proof.
  split; [|split].
  - intros path -> Hsegments. rewrite Split_len in Hsegments.
    rewrite normalize_host_prefixed, isValidRepoPath_TrimSuffix; [done | lia].
  - intros Hscheme Hhost Hsegments. rewrite Split_len in Hsegments.
    unfold normalizeRepositoryURL. rewrite Hscheme, Hhost.
    case_bool_decide as Hempty; [subst; cbn in Hsegments; lia|].
    destruct (Count repoURL "/" =? 1) eqn:Hone; [|done].
    apply Nat.eqb_eq in Hone. lia.
  - intros u Hscheme Hparse Hsegments. rewrite Split_len in Hsegments.
    unfold normalizeRepositoryURL. rewrite Hscheme, Hparse.
    case_bool_decide as Hempty; [subst; done|].
    destruct (negb (bool_decide (Host u = "github.com"))); [done|].
    rewrite isValidRepoPath_TrimSuffix; [done | lia].
Qed.

(** C6 (amended).  A reference with an http:// or https:// scheme is
    parsed as a URL.  It is rejected whenever it does not parse or its host
    is not github.com, also when letter case is ignored.  A host of
    github.com is not enough: the reference is then accepted exactly when
    its path, without the leading slash and a trailing .git, is a valid
    owner/repo path. *)
Theorem normalize_url_host_check (repoURL : string) :
  HasPrefix repoURL "http://" || HasPrefix repoURL "https://" = true ->
  (∀ err, url_Parse repoURL = Err err ->
          normalizeRepositoryURL repoURL = Err ("invalid URL format: " +:+ err))
  ∧ (∀ u, url_Parse repoURL = Ok u -> ToLower (Host u) ≠ "github.com" ->
          normalizeRepositoryURL repoURL = Err (unsupported repoURL))
  ∧ (∀ u, url_Parse repoURL = Ok u -> Host u = "github.com" ->
          let path := TrimSuffix (TrimPrefix (Path u) "/") ".git" in
          normalizeRepositoryURL repoURL =
          if isValidRepoPath path then Ok ("github.com/" +:+ path)
          else Err (unsupported repoURL)).
Proof.
  intros Hscheme.
  assert (repoURL ≠ "") as Hne by (intros ->; done).
  unfold normalizeRepositoryURL.
  rewrite Hscheme, (bool_decide_eq_false_2 _ Hne).
  split; [|split].
  - intros err ->. done.
  - intros u -> Hhost.
    apply (ToLower_fixed _ "github.com" eq_refl) in Hhost.
    by rewrite (bool_decide_eq_false_2 _ Hhost).
  - intros u -> Hhost. rewrite (bool_decide_eq_true_2 _ Hhost). cbn.
    by destruct (isValidRepoPath _).
Qed.

End normalizer.

(** ** The fetch from the resource-map service *)

Section fetch.

Lemma foldl_snoc_map {A B : Type} (f : A -> B) (l : list A) (acc : list B) :
  foldl (fun acc x => acc ++ [f x]) acc l = acc ++ (f <$> l).
Proof.
  revert acc. induction l as [|x l IH]; intros acc; cbn.
  - by rewrite app_nil_r.
  - by rewrite IH, <- app_assoc.
Qed.

Lemma collect_complete (acc : list repository) (properties : gmap string string) :
  collect acc properties = acc ++ option_list (complete properties).
Proof.
  unfold collect, complete.
  destruct (properties !! "org") as [o|], (properties !! "name") as [n|]; cbn;
    repeat case_bool_decide; subst; cbn; rewrite ?app_nil_r; done.
Qed.

Lemma foldl_collect (output : list (gmap string string)) (acc : list repository) :
  foldl collect acc output = acc ++ omap complete output.
Proof.
  revert acc. induction output as [|properties output IH]; intros acc; cbn.
  - by rewrite app_nil_r.
  - rewrite IH, collect_complete, <- app_assoc.
    by destruct (complete properties).
Qed.

Lemma complete_Some (properties : gmap string string) (r : repository) :
  complete properties = Some r <->
  properties !! "org" = Some (org r) ∧ properties !! "name" = Some (repo r)
  ∧ org r ≠ "" ∧ repo r ≠ "".
Proof.
  unfold complete. destruct r as [n o]; cbn.
  destruct (properties !! "org") as [o'|], (properties !! "name") as [n'|];
    repeat case_bool_decide; cbn; split;
    try (intros [= <- <-]; done); try (intros ([= <-] & [= <-] & ? & ?); done);
    try (intros (? & ? & _); done).
Qed.

(** With a connection, [GetAllAccessibleRepos] passes on the error of
    [Traverse] or returns the complete nodes, in order. *)
Lemma GetAllAccessibleRepos_connected (email : string) (s : ResourceMapService) :
  rms_dial s (rms_dials s) = None ->
  (GetAllAccessibleRepos email s).1 =
  Done (match rms_traverse s (List.length (rms_requests s)) email with
        | Err err => Err err
        | Ok output => Ok (omap complete output)
        end).
Proof.
  intros Hdial. unfold GetAllAccessibleRepos, mbind, Rms_bind, initialise, Traverse.
  rewrite Hdial. cbn.
  destruct (rms_traverse s _ email) as [output|err]; cbn; [|done].
  by rewrite foldl_collect.
Qed.

Lemma GetAllAccessibleRepos_nonempty (email : string) (s s' : ResourceMapService)
    (repos : list repository) :
  GetAllAccessibleRepos email s = (Done (Ok repos), s') ->
  ∀ r, r ∈ repos -> org r ≠ "" ∧ repo r ≠ "".
Proof.
  unfold GetAllAccessibleRepos, mbind, Rms_bind, initialise, Traverse.
  destruct (rms_dial s (rms_dials s)) as [[?|?]|]; cbn; try done.
  destruct (rms_traverse s _ email) as [output|err]; cbn; [|done].
  intros [= <- _] r Hr. rewrite foldl_collect in Hr. cbn in Hr.
  apply list_elem_of_omap in Hr as (properties & _ & Hcomplete).
  apply complete_Some in Hcomplete. tauto.
Qed.

Lemma fetch_Ok (v : Validator) (s s' : ResourceMapService) (repos : list repository) :
  GetAllAccessibleRepos (userEmail v) s = (Done (Ok repos), s') ->
  fetchAccessibleRepositories v s = (Done (Ok (repoURL_of <$> repos)), s').
Proof.
  intros Hget. unfold fetchAccessibleRepositories, mbind, Rms_bind.
  rewrite Hget. cbn. by rewrite foldl_snoc_map.
Qed.

Lemma fetch_Err (v : Validator) (s s' : ResourceMapService) (err : error) :
  GetAllAccessibleRepos (userEmail v) s = (Done (Err err), s') ->
  fetchAccessibleRepositories v s =
  (Done (Err ("failed to fetch accessible repositories: " +:+ err)), s').
Proof.
  intros Hget. unfold fetchAccessibleRepositories, mbind, Rms_bind.
  by rewrite Hget.
Qed.

Lemma fetch_Fatal (v : Validator) (s s' : ResourceMapService) (msg : string) :
  GetAllAccessibleRepos (userEmail v) s = (Fatal msg, s') ->
  fetchAccessibleRepositories v s = (Fatal msg, s').
Proof.
  intros Hget. unfold fetchAccessibleRepositories, mbind, Rms_bind.
  by rewrite Hget.
Qed.

End fetch.

(** ** The validator *)

Section validator.
Context {parser : UrlParser}.

Lemma elem_of_foldl_union (l : list string) (X : gset string) (x : string) :
  x ∈ foldl (fun acc r => {[r]} ∪ acc) X l <-> x ∈ X ∨ x ∈ l.
Proof.
  revert X. induction l as [|y l IH]; intros X; cbn.
  - rewrite elem_of_nil. tauto.
  - rewrite IH, elem_of_cons, elem_of_union, elem_of_singleton. tauto.
Qed.

(** On an initialized validator Initialize is the computation that
    returns it with no error. *)
Lemma Initialize_when_initialized (v : Validator) :
  initialized v = true -> Initialize v = mret (v, None).
Proof. intros Hinit. unfold Initialize. by rewrite Hinit. Qed.

Lemma Initialize_Ok (v : Validator) (s s' : ResourceMapService) (repos : list repository) :
  initialized v = false ->
  GetAllAccessibleRepos (userEmail v) s = (Done (Ok repos), s') ->
  Initialize v s = (Done (populated v repos, None), s').
Proof.
  intros Hinit Hget. unfold Initialize. rewrite Hinit.
  unfold mbind, Rms_bind. by rewrite (fetch_Ok _ _ _ _ Hget).
Qed.

Lemma Initialize_Fatal (v : Validator) (s s' : ResourceMapService) (msg : string) :
  initialized v = false ->
  GetAllAccessibleRepos (userEmail v) s = (Fatal msg, s') ->
  Initialize v s = (Fatal msg, s').
Proof.
  intros Hinit Hget. unfold Initialize. rewrite Hinit.
  unfold mbind, Rms_bind. by rewrite (fetch_Fatal _ _ _ _ Hget).
Qed.

Lemma Initialize_Err (v : Validator) (s s' : ResourceMapService) (err : error) :
  initialized v = false ->
  GetAllAccessibleRepos (userEmail v) s = (Done (Err err), s') ->
  Initialize v s =
    (Done (v, Some ("failed to fetch accessible repositories: "
                      +:+ "failed to fetch accessible repositories: " +:+ err)), s').
Proof.
  intros Hinit Hget. unfold Initialize. rewrite Hinit.
  unfold mbind, Rms_bind. by rewrite (fetch_Err _ _ _ _ Hget).
Qed.

Lemma elem_of_populated (v : Validator) (repos : list repository) (key : string) :
  key ∈ accessibleRepos (populated v repos) <-> ∃ r, r ∈ repos ∧ key = repoURL_of r.
Proof.
  cbn. rewrite elem_of_foldl_union, list_elem_of_fmap. split.
  - intros [Hempty|(r & -> & Hr)]; [by apply not_elem_of_empty in Hempty | eauto].
  - intros (r & Hr & ->). right. eauto.
Qed.

(** C3 (amended).  During Initialize every repository that the identity
    collaborator returns is filed under the key github.com/<org>/<repo>
    formatted from it, as it is: the access set holds exactly these keys.
    No reference is passed to the normalizer, none is skipped or counted,
    and the call succeeds whenever the collaborator does. *)
Theorem Initialize_files_formatted_keys (v : Validator) (s s' : ResourceMapService)
    (repos : list repository) :
  initialized v = false ->
  GetAllAccessibleRepos (userEmail v) s = (Done (Ok repos), s') ->
  ∃ v', Initialize v s = (Done (v', None), s')
        ∧ initialized v' = true
        ∧ ∀ key, key ∈ accessibleRepos v' <->
                 ∃ r, r ∈ repos ∧ key = "github.com/" +:+ org r +:+ "/" +:+ repo r.
Proof.
  intros Hinit Hget. exists (populated v repos).
  split; [by apply Initialize_Ok|]. split; [done|].
  apply elem_of_populated.
Qed.

(** C4.  On a validator that is not initialized, IsRepositoryAccessible
    returns false together with the error "validator not initialized", for
    every reference, malformed ones included: the state is checked before
    the reference is normalized. *)
Theorem IsRepositoryAccessible_not_initialized (v : Validator) (repoURL : string) :
  initialized v = false ->
  IsRepositoryAccessible v repoURL = (false, Some "validator not initialized").
Proof. intros Hinit. unfold IsRepositoryAccessible. by rewrite Hinit. Qed.

(** C7.  When the fetch from the collaborator fails, Initialize returns
    the (wrapped) error, leaves the validator as it was, access set
    included, and does not mark it initialized: every later
    IsRepositoryAccessible answers with the not-initialized error. *)
Theorem Initialize_all_or_nothing (v : Validator) (s s' : ResourceMapService) (err : error) :
  initialized v = false ->
  GetAllAccessibleRepos (userEmail v) s = (Done (Err err), s') ->
  Initialize v s =
    (Done (v, Some ("failed to fetch accessible repositories: "
                      +:+ "failed to fetch accessible repositories: " +:+ err)), s')
  ∧ ∀ repoURL, IsRepositoryAccessible v repoURL = (false, Some "validator not initialized").
Proof.
  intros Hinit Hget. split.
  - by apply Initialize_Err.
  - intros repoURL. unfold IsRepositoryAccessible. by rewrite Hinit.
Qed.

(** C8.  On a validator that is initialized, Initialize returns no error
    at once: the validator, its access set included, is unchanged, and so
    is the record of the service, so nothing was dialled or requested. *)
Theorem Initialize_idempotent (v : Validator) (s : ResourceMapService) :
  initialized v = true ->
  Initialize v s = (Done (v, None), s).
Proof. intros Hinit. by rewrite Initialize_when_initialized. Qed.

(** A call of Initialize that returns no error leaves the validator
    initialized, so that a second call is the no-op above. *)
Lemma Initialize_success_initialized (v v' : Validator) (s s' : ResourceMapService) :
  Initialize v s = (Done (v', None), s') -> initialized v' = true.
Proof.
  unfold Initialize. destruct (initialized v) eqn:Hinit.
  - by intros [= <- _].
  - unfold mbind, Rms_bind.
    destruct (fetchAccessibleRepositories v s) as [[msg|[repos|err]] s'']; cbn; try done.
    by intros [= <- _].
Qed.

Lemma Initialize_twice (v v' : Validator) (s s' : ResourceMapService) :
  Initialize v s = (Done (v', None), s') ->
  Initialize v' s' = (Done (v', None), s').
Proof.
  intros Hfirst. rewrite Initialize_when_initialized; [done|].
  by eapply Initialize_success_initialized.
Qed.

(** C9.  When the collaborator returns no repository, Initialize succeeds
    and leaves the validator initialized with an empty access set; from
    then on IsRepositoryAccessible returns false without error for every
    reference that normalizes. *)
Theorem Initialize_empty (v : Validator) (s s' : ResourceMapService) :
  initialized v = false ->
  GetAllAccessibleRepos (userEmail v) s = (Done (Ok []), s') ->
  ∃ v', Initialize v s = (Done (v', None), s')
        ∧ initialized v' = true
        ∧ accessibleRepos v' = ∅
        ∧ ∀ repoURL key, normalizeRepositoryURL repoURL = Ok key ->
                         IsRepositoryAccessible v' repoURL = (false, None).
Proof.
  intros Hinit Hget. exists (populated v []).
  split; [by apply Initialize_Ok|]. repeat split.
  intros repoURL key Hkey. unfold IsRepositoryAccessible. cbn. rewrite Hkey.
  by rewrite bool_decide_eq_false_2 by set_solver.
Qed.

(** Every key of a populated access set is well formed. *)
Lemma populated_well_formed (v : Validator) (repos : list repository) :
  (∀ r, r ∈ repos -> org r ≠ "" ∧ repo r ≠ "") ->
  ∀ key, key ∈ accessibleRepos (populated v repos) -> well_formed_key key.
Proof.
  intros Hrepos key (r & Hr & ->)%elem_of_populated.
  destruct (Hrepos r Hr). by exists (org r), (repo r).
Qed.

Lemma Initialize_well_formed (v v' : Validator) (s s' : ResourceMapService)
    (err : option error) :
  (∀ key, key ∈ accessibleRepos v -> well_formed_key key) ->
  Initialize v s = (Done (v', err), s') ->
  ∀ key, key ∈ accessibleRepos v' -> well_formed_key key.
Proof.
  intros Hv. destruct (initialized v) eqn:Hinit.
  - rewrite Initialize_when_initialized by done. by intros [= <- _ _].
  - destruct (GetAllAccessibleRepos (userEmail v) s) as [[msg|[repos|e]] s''] eqn:Hget.
    + by rewrite (Initialize_Fatal _ _ _ _ Hinit Hget).
    + rewrite (Initialize_Ok _ _ _ _ Hinit Hget). intros [= <- _ _].
      apply populated_well_formed. by eapply GetAllAccessibleRepos_nonempty.
    + rewrite (Initialize_Err _ _ _ _ Hinit Hget). by intros [= <- _ _].
Qed.

Lemma session_well_formed (ops : list Op) (v v' : Validator) (s s' : ResourceMapService) :
  (∀ key, key ∈ accessibleRepos v -> well_formed_key key) ->
  session ops v s = (Done v', s') ->
  ∀ key, key ∈ accessibleRepos v' -> well_formed_key key.
Proof.
  revert v s. induction ops as [|op ops IH]; intros v s Hv; cbn.
  - by intros [= <- _].
  - unfold mbind, Rms_bind.
    destruct (step op v s) as [[msg|v1] s1] eqn:Hstep; [done|].
    apply IH. destruct op; cbn in Hstep.
    + unfold mbind, Rms_bind in Hstep.
      destruct (Initialize v s) as [[msg|[v2 err]] s2] eqn:Hinit; [done|].
      injection Hstep as <- _. by eapply Initialize_well_formed.
    + by injection Hstep as <- _.
    + by injection Hstep as <- _.
Qed.

(** C10.  After any sequence of calls on a new validator, every key of
    its access set has the form github.com/<org>/<repo> with both parts
    non-empty.  The fetch layer is the reason: with a connection and an
    answer from the graph, GetAllAccessibleRepos returns, without error
    and without any count, exactly the nodes whose org and name properties
    are both present and non-empty; the others are left out. *)
Theorem accessibleRepos_well_formed (email : string) (ops : list Op) (s : ResourceMapService) :
  (∀ v s', session ops (NewValidator email) s = (Done v, s') ->
           ∀ key, key ∈ accessibleRepos v ->
                  ∃ org repo : string,
                    org ≠ "" ∧ repo ≠ "" ∧ key = "github.com/" +:+ org +:+ "/" +:+ repo)
  ∧ (∀ output, rms_dial s (rms_dials s) = None ->
               rms_traverse s (List.length (rms_requests s)) email = Ok output ->
               (GetAllAccessibleRepos email s).1 = Done (Ok (omap complete output))
               ∧ ∀ properties r,
                   complete properties = Some r <->
                   properties !! "org" = Some (org r) ∧ properties !! "name" = Some (repo r)
                   ∧ org r ≠ "" ∧ repo r ≠ "").
Proof.
  split.
  - intros v s' Hsession. eapply session_well_formed; [|done].
    intros key Hkey. cbn in Hkey. set_solver.
  - intros output Hdial Htraverse. split; [|apply complete_Some].
    rewrite GetAllAccessibleRepos_connected by done. by rewrite Htraverse.
Qed.

End validator.

(** ** The gate of the handlers *)

Section gate.
Context {parser : UrlParser} {Request : Type} {params : ToolRequest Request}
  {joiner : UrlJoiner}.

Lemma run_from_extends {R : Type} (v : Validator) (world : Provider)
    (p : Prog R) (done : list Call) :
  ∃ rest, (run_from v world done p).2 = done ++ rest.
Proof.
  revert done. induction p as [r|c k IH]; intros done; cbn.
  - exists []. by rewrite app_nil_r.
  - destruct (IH (answer v world done c) (done ++ [c])) as [rest ->].
    exists (c :: rest). by rewrite <- app_assoc.
Qed.

Ltac gated_handler :=
  match goal with
  | |- gated ?request _ =>
      destruct (RequiredParam request "owner") as [owner|err] eqn:Howner; cbn;
      [ destruct (RequiredParam request "repo") as [repo|err] eqn:Hrepo; cbn;
        [ by eapply gated_checked | by eapply gated_no_repo ]
      | by eapply gated_no_owner ]
  end.

Lemma GetFileContentsWithValidation_gated (request : Request) :
  gated request (GetFileContentsWithValidation request).
Proof. unfold GetFileContentsWithValidation. gated_handler. Qed.

Lemma GetCommitWithValidation_gated (request : Request) :
  gated request (GetCommitWithValidation request).
Proof. unfold GetCommitWithValidation. gated_handler. Qed.

Lemma ListCommitsWithValidation_gated (request : Request) :
  gated request (ListCommitsWithValidation request).
Proof. unfold ListCommitsWithValidation. gated_handler. Qed.

Lemma ListBranchesWithValidation_gated (request : Request) :
  gated request (ListBranchesWithValidation request).
Proof. unfold ListBranchesWithValidation. gated_handler. Qed.

Lemma CreateBranchWithValidation_gated (request : Request) :
  gated request (CreateBranchWithValidation request).
Proof. unfold CreateBranchWithValidation. gated_handler. Qed.

Lemma handler_gated (tool : GatedTool) (request : Request) :
  gated request (handler tool request).
Proof.
  destruct tool; cbn;
    auto using GetFileContentsWithValidation_gated, GetCommitWithValidation_gated,
      ListCommitsWithValidation_gated, ListBranchesWithValidation_gated,
      CreateBranchWithValidation_gated.
Qed.

(** What the run of a gated program looks like. *)
Lemma gated_run (request : Request) (p : Prog HandlerResult) (v : Validator)
    (world : Provider) :
  gated request p ->
  (∀ i c, (run v world p).2 !! i = Some c -> reaches_provider c = true ->
          ∃ owner repo j,
            RequiredParam request "owner" = Ok owner
            ∧ RequiredParam request "repo" = Ok repo
            ∧ j < i
            ∧ (run v world p).2 !! j = Some (gate_check owner repo))
  ∧ (∀ owner repo,
        RequiredParam request "owner" = Ok owner ->
        RequiredParam request "repo" = Ok repo ->
        IsRepositoryAccessible v ("github.com/" +:+ owner +:+ "/" +:+ repo) = (false, None) ->
        run v world p = (ToolResult (ToolResultError (denied owner repo)),
                         [gate_check owner repo])).
Proof.
  intros [err r Herr|err r Herr|owner repo k Howner Hrepo Hdenied]; unfold run; cbn.
  - split; [by intros i c Hi|]. intros owner repo Howner. congruence.
  - split; [by intros i c Hi|]. intros owner repo _ Hrepo. congruence.
  - split.
    + intros i c Hi Hprovider. exists owner, repo, 0.
      destruct (run_from_extends v world
                  (k (IsRepositoryAccessible v ("github.com/" +:+ owner +:+ "/" +:+ repo)))
                  [gate_check owner repo]) as [rest Hrest].
      unfold gate_check in *. rewrite Hrest in *. cbn in *.
      destruct i as [|i]; [|repeat split; [done..|lia]].
      injection Hi as <-. done.
    + intros owner' repo' Howner' Hrepo'.
      assert (owner' = owner) as -> by congruence.
      assert (repo' = repo) as -> by congruence.
      intros ->. by rewrite Hdenied.
Qed.

(** C1.  Each gated handler (get_file_contents, get_commit, list_commits,
    list_branches, create_branch) asks the validator about the repository
    of the request before any call that reaches the provider: in the log
    of every run, whatever validator and provider it runs against, a call
    that reaches the provider comes after the check of
    github.com/<owner>/<repo>.  When that check answers false (without
    error), the handler returns the access-denied error result and the
    check is the only call it made. *)
Theorem gate_precedes_provider (tool : GatedTool) (request : Request) (v : Validator)
    (world : Provider) :
  (∀ i c, (run v world (handler tool request)).2 !! i = Some c ->
          reaches_provider c = true ->
          ∃ owner repo j,
            RequiredParam request "owner" = Ok owner
            ∧ RequiredParam request "repo" = Ok repo
            ∧ j < i
            ∧ (run v world (handler tool request)).2 !! j = Some (gate_check owner repo))
  ∧ (∀ owner repo,
        RequiredParam request "owner" = Ok owner ->
        RequiredParam request "repo" = Ok repo ->
        IsRepositoryAccessible v ("github.com/" +:+ owner +:+ "/" +:+ repo) = (false, None) ->
        run v world (handler tool request) =
          (ToolResult (ToolResultError (denied owner repo)), [gate_check owner repo])).
Proof. apply gated_run, handler_gated. Qed.

End gate.

(** ** The theorems at concrete inputs *)

(** The runs below use the model [net_url_Parse] of [url.Parse], requests
    with string arguments and the plain [url.JoinPath]. *)

Lemma normalize_rejects_extra_segments_witness :
  normalizeRepositoryURL (parser:=net_url_Parse) "github.com/owner/repo/extra"
  = Err "unsupported repository URL format: github.com/owner/repo/extra"
  ∧ normalizeRepositoryURL (parser:=net_url_Parse) "owner/repo/path/to/file"
    = Err "unsupported repository URL format: owner/repo/path/to/file"
  ∧ normalizeRepositoryURL (parser:=net_url_Parse) "https://github.com/owner/repo/blob/main/file.go"
    = Err "unsupported repository URL format: https://github.com/owner/repo/blob/main/file.go".
Proof.
  split; [|split].
  - apply (proj1 (normalize_rejects_extra_segments (parser:=net_url_Parse)
                    "github.com/owner/repo/extra") "owner/repo/extra"); [reflexivity|].
    vm_compute. lia.
  - apply (proj1 (proj2 (normalize_rejects_extra_segments (parser:=net_url_Parse)
                           "owner/repo/path/to/file"))); [reflexivity | reflexivity |].
    vm_compute. lia.
  - apply (proj2 (proj2 (normalize_rejects_extra_segments (parser:=net_url_Parse)
                           "https://github.com/owner/repo/blob/main/file.go"))
             {| Scheme := "https"; Host := "github.com"; Path := "/owner/repo/blob/main/file.go";
                RawQuery := ""; Fragment := "" |}); [reflexivity | reflexivity |].
    vm_compute. lia.
Defined.

(** C5 (counterexample).  A reference with a file path appended after the
    repo name is not accepted with its first two segments: it is
    rejected. *)
Lemma normalize_does_not_truncate :
  normalizeRepositoryURL (parser:=net_url_Parse) "github.com/owner/repo/extra"
  = Err (unsupported "github.com/owner/repo/extra")
  ∧ is_Ok (normalizeRepositoryURL (parser:=net_url_Parse)
             "https://github.com/owner/repo/blob/main/README.md") = false
  ∧ is_Ok (normalizeRepositoryURL (parser:=net_url_Parse) "owner/repo/tree/main") = false.
Proof. repeat split; reflexivity. Qed.

Lemma normalize_url_host_check_witness :
  normalizeRepositoryURL (parser:=net_url_Parse) "https://gitlab.com/owner/repo"
  = Err "unsupported repository URL format: https://gitlab.com/owner/repo"
  ∧ normalizeRepositoryURL (parser:=net_url_Parse) "https://github.com/owner/repo.git"
    = Ok "github.com/owner/repo".
Proof.
  split.
  - apply (proj1 (proj2 (normalize_url_host_check (parser:=net_url_Parse)
                           "https://gitlab.com/owner/repo" eq_refl))
             {| Scheme := "https"; Host := "gitlab.com"; Path := "/owner/repo";
                RawQuery := ""; Fragment := "" |}); [reflexivity|].
    vm_compute. discriminate.
  - apply (proj2 (proj2 (normalize_url_host_check (parser:=net_url_Parse)
                           "https://github.com/owner/repo.git" eq_refl))
             {| Scheme := "https"; Host := "github.com"; Path := "/owner/repo.git";
                RawQuery := ""; Fragment := "" |}); reflexivity.
Defined.

(** C6 (counterexample).  The reference https://github.com/owner carries
    a scheme and parses with host github.com, the expected host, and is
    rejected all the same: an error is not returned exactly when the host
    differs. *)
Lemma normalize_rejects_expected_host :
  HasPrefix "https://github.com/owner" "https://" = true
  ∧ net_url_Parse "https://github.com/owner"
    = Ok {| Scheme := "https"; Host := "github.com"; Path := "/owner";
            RawQuery := ""; Fragment := "" |}
  ∧ normalizeRepositoryURL (parser:=net_url_Parse) "https://github.com/owner"
    = Err (unsupported "https://github.com/owner").
Proof. repeat split; reflexivity. Qed.

(** The host of a URL is compared byte for byte: the test-suite's
    reference https://GitHub.COM/owner/repo is rejected. *)
Example normalize_host_letter_case :
  normalizeRepositoryURL (parser:=net_url_Parse) "https://GitHub.COM/owner/repo"
  = Err (unsupported "https://GitHub.COM/owner/repo").
Proof. reflexivity. Qed.

Lemma IsRepositoryAccessible_not_initialized_witness :
  initialized (NewValidator "dev@example.com") = false
  ∧ IsRepositoryAccessible (parser:=net_url_Parse) (NewValidator "dev@example.com") ""
    = (false, Some "validator not initialized")
  ∧ IsRepositoryAccessible (parser:=net_url_Parse) (NewValidator "dev@example.com")
      "github.com/user/repo1"
    = (false, Some "validator not initialized").
Proof.
  split; [reflexivity|].
  split; apply IsRepositoryAccessible_not_initialized; reflexivity.
Defined.

Lemma Initialize_all_or_nothing_witness :
  Initialize (NewValidator "dev@example.com") (service (Err "rpc error: unavailable"))
  = (Done (NewValidator "dev@example.com",
           Some ("failed to fetch accessible repositories: "
                   +:+ "failed to fetch accessible repositories: rpc error: unavailable")),
     service_at (Err "rpc error: unavailable") 1 ["dev@example.com"])
  ∧ ∀ repoURL,
      IsRepositoryAccessible (parser:=net_url_Parse) (NewValidator "dev@example.com") repoURL
      = (false, Some "validator not initialized").
Proof.
  apply (Initialize_all_or_nothing (parser:=net_url_Parse)); reflexivity.
Defined.

Lemma Initialize_idempotent_witness :
  initialized (populated (NewValidator "dev@example.com") [mkRepository "hello" "octo"]) = true
  ∧ Initialize (populated (NewValidator "dev@example.com") [mkRepository "hello" "octo"])
      (service (Ok [graph_node "octo" "other"]))
    = (Done (populated (NewValidator "dev@example.com") [mkRepository "hello" "octo"], None),
       service (Ok [graph_node "octo" "other"])).
Proof. split; [reflexivity | apply Initialize_idempotent; reflexivity]. Defined.

Lemma Initialize_empty_witness :
  ∃ v', Initialize (NewValidator "dev@example.com") (service (Ok []))
        = (Done (v', None), service_at (Ok []) 1 ["dev@example.com"])
        ∧ initialized v' = true
        ∧ accessibleRepos v' = ∅
        ∧ ∀ repoURL key,
            normalizeRepositoryURL (parser:=net_url_Parse) repoURL = Ok key ->
            IsRepositoryAccessible (parser:=net_url_Parse) v' repoURL = (false, None).
Proof. apply (Initialize_empty (parser:=net_url_Parse)); reflexivity. Defined.

Lemma Initialize_files_formatted_keys_witness :
  ∃ v', Initialize (NewValidator "dev@example.com")
          (service (Ok [graph_node "octo" "hello"; graph_node "octo" "Spoon.git"]))
        = (Done (v', None),
           service_at (Ok [graph_node "octo" "hello"; graph_node "octo" "Spoon.git"])
             1 ["dev@example.com"])
        ∧ initialized v' = true
        ∧ ∀ key, key ∈ accessibleRepos v' <->
                 ∃ r, r ∈ [mkRepository "hello" "octo"; mkRepository "Spoon.git" "octo"]
                      ∧ key = "github.com/" +:+ org r +:+ "/" +:+ repo r.
Proof. apply Initialize_files_formatted_keys; reflexivity. Defined.

(** C3 (counterexample).  The graph returns the repositories
    octo/Spoon.git and team/platform/api.  The second reference fails
    normalization and the first one normalizes to another key, yet both are
    in the access set as they were formatted, and the normalized key is
    not: the set is not the one that normalizing and skipping gives. *)
Lemma Initialize_does_not_normalize :
  (fetchAccessibleRepositories (NewValidator "dev@example.com")
     (service (Ok [graph_node "octo" "Spoon.git"; graph_node "team/platform" "api"]))).1
  = Done (Ok ["github.com/octo/Spoon.git"; "github.com/team/platform/api"])
  ∧ normalizeRepositoryURL (parser:=net_url_Parse) "github.com/team/platform/api"
    = Err (unsupported "github.com/team/platform/api")
  ∧ normalizeRepositoryURL (parser:=net_url_Parse) "github.com/octo/Spoon.git"
    = Ok "github.com/octo/Spoon"
  ∧ accessibleRepos
      (initialized_validator "dev@example.com"
         (service (Ok [graph_node "octo" "Spoon.git"; graph_node "team/platform" "api"])))
    = {[ "github.com/octo/Spoon.git"; "github.com/team/platform/api" ]}
  ∧ spec_populate (parser:=net_url_Parse)
      ["github.com/octo/Spoon.git"; "github.com/team/platform/api"]
    = {[ "github.com/octo/Spoon" ]}
  ∧ ({[ "github.com/octo/Spoon.git"; "github.com/team/platform/api" ]} : gset string)
    ≠ {[ "github.com/octo/Spoon" ]}.
Proof.
  split; [reflexivity|]. split; [reflexivity|]. split; [reflexivity|].
  split; [by vm_compute|]. split; [by vm_compute|].
  intros Heq. apply (bool_decide_pack _) in Heq. by vm_compute in Heq.
Qed.

Lemma accessibleRepos_well_formed_witness :
  (∃ org repo : string,
      org ≠ "" ∧ repo ≠ "" ∧ "github.com/octo/hello" = "github.com/" +:+ org +:+ "/" +:+ repo)
  ∧ (GetAllAccessibleRepos "dev@example.com"
       (service (Ok [graph_node "octo" "hello"; graph_node "" "nameless";
                     {["name" := "orphan"]}; ∅]))).1
    = Done (Ok [mkRepository "hello" "octo"]).
Proof.
  pose proof (accessibleRepos_well_formed "dev@example.com"
                [OpInitialize; OpIsRepositoryAccessible "octo/hello"; OpInitialize;
                 OpGetAccessibleRepositories]
                (service (Ok [graph_node "octo" "hello"; graph_node "" "nameless";
                              {["name" := "orphan"]}; ∅]))) as [Hkeys Hfetch].
  split.
  - eapply Hkeys; [reflexivity|]. by vm_compute.
  - by destruct (Hfetch _ eq_refl eq_refl) as [-> _].
Defined.

Lemma gate_precedes_provider_witness :
  (∃ owner repo j,
      RequiredParam (ToolRequest:=arguments_request)
        [("owner", "octo"); ("repo", "hello"); ("branch", "dev")] "owner" = Ok owner
      ∧ RequiredParam (ToolRequest:=arguments_request)
          [("owner", "octo"); ("repo", "hello"); ("branch", "dev")] "repo" = Ok repo
      ∧ j < 2
      ∧ (run (parser:=net_url_Parse)
           (initialized_validator "dev@example.com" (service (Ok [graph_node "octo" "hello"])))
           obliging_provider
           (handler (params:=arguments_request) (joiner:=names_JoinPath) create_branch
              [("owner", "octo"); ("repo", "hello"); ("branch", "dev")])).2 !! j
        = Some (gate_check owner repo))
  ∧ run (parser:=net_url_Parse)
      (initialized_validator "dev@example.com" (service (Ok [graph_node "octo" "hello"])))
      obliging_provider
      (handler (params:=arguments_request) (joiner:=names_JoinPath) get_file_contents
         [("owner", "octo"); ("repo", "secret"); ("path", "README.md")])
    = (ToolResult (ToolResultError
         "Access denied: Repository octo/secret is not accessible to the current user"),
       [gate_check "octo" "secret"]).
Proof.
  split.
  - apply (proj1 (gate_precedes_provider (parser:=net_url_Parse) (params:=arguments_request)
                    (joiner:=names_JoinPath) create_branch
                    [("owner", "octo"); ("repo", "hello"); ("branch", "dev")]
                    (initialized_validator "dev@example.com"
                       (service (Ok [graph_node "octo" "hello"])))
                    obliging_provider)
             2 (provider (Repositories_Get "octo" "hello"))); reflexivity.
  - apply (proj2 (gate_precedes_provider (parser:=net_url_Parse) (params:=arguments_request)
                    (joiner:=names_JoinPath) get_file_contents
                    [("owner", "octo"); ("repo", "secret"); ("path", "README.md")]
                    (initialized_validator "dev@example.com"
                       (service (Ok [graph_node "octo" "hello"])))
                    obliging_provider)
             "octo" "secret"); reflexivity.
Defined.

(** Runs of the handlers on an accessible repository: the check comes
    first and the provider calls follow. *)
Example create_branch_run :
  run (parser:=net_url_Parse)
    (initialized_validator "dev@example.com" (service (Ok [graph_node "octo" "hello"])))
    obliging_provider
    (handler (params:=arguments_request) (joiner:=names_JoinPath) create_branch
       [("owner", "octo"); ("repo", "hello"); ("branch", "dev")])
  = (ToolResult (ToolResultText "{created}"),
     [gate_check "octo" "hello"; provider getClient; provider (Repositories_Get "octo" "hello");
      provider (Git_GetRef "octo" "hello" "refs/heads/main");
      provider (Git_CreateRef "octo" "hello" "refs/heads/dev" (Some "abc123"))]).
Proof. reflexivity. Qed.

Example get_file_contents_run :
  run (parser:=net_url_Parse)
    (initialized_validator "dev@example.com" (service (Ok [graph_node "octo" "hello"])))
    obliging_provider
    (handler (params:=arguments_request) (joiner:=names_JoinPath) get_file_contents
       [("owner", "octo"); ("repo", "hello"); ("path", "README.md")])
  = (ToolResult (ToolResultResource "successfully downloaded text file (SHA: abc123)"
                   (TextResourceContents "repo://octo/hello/contents/README.md" "body"
                      "text/plain")),
     [gate_check "octo" "hello"; provider getClient; provider (Repositories_Get "octo" "hello");
      provider (Git_GetRef "octo" "hello" "refs/heads/main");
      provider (Repositories_GetContents "octo" "hello" "README.md" "");
      provider getRawClient;
      provider (RawClient_GetRawContent "octo" "hello" "README.md"
                {| opts_Ref := "refs/heads/main"; opts_SHA := "abc123" |})]).
Proof. reflexivity. Qed.

(** Before the validator is initialized the handlers stop at the check
    with its error, and a request without owner never reaches it. *)
Example list_branches_not_initialized :
  run (parser:=net_url_Parse) (NewValidator "dev@example.com") obliging_provider
    (handler (params:=arguments_request) (joiner:=names_JoinPath) list_branches
       [("owner", "octo"); ("repo", "hello")])
  = (ToolResult (ToolResultError
       "Failed to validate repository access: validator not initialized"),
     [gate_check "octo" "hello"])
  ∧ run (parser:=net_url_Parse) (NewValidator "dev@example.com") obliging_provider
      (handler (params:=arguments_request) (joiner:=names_JoinPath) list_commits
         [("repo", "hello")])
    = (ToolResult (ToolResultError "missing required parameter: owner"), []).
Proof. split; reflexivity. Qed.

(** The population scenario of the test-suite: the access check follows
    the normalizer in keeping letter case. *)
Example IsRepositoryAccessible_letter_case :
  IsRepositoryAccessible (parser:=net_url_Parse)
    (initialized_validator "dev@example.com" (service (Ok [graph_node "user" "repo1"])))
    "github.com/user/repo1" = (true, None)
  ∧ IsRepositoryAccessible (parser:=net_url_Parse)
      (initialized_validator "dev@example.com" (service (Ok [graph_node "user" "repo1"])))
      "github.com/USER/repo1" = (false, None).
Proof. split; reflexivity. Qed.

(** ** More on the string functions *)

Section more_string_facts.
Implicit Types s t prefix suffix : string.

Lemma drop_append_len_plus s t n : drop (len s + n) (s +:+ t) = drop n t.
Proof.
  induction s as [|c s IH]; [done|].
  rewrite append_cons. cbn. done.
Qed.

Lemma HasSuffix_app s suffix : HasSuffix (s +:+ suffix) suffix = true.
Proof.
  unfold HasSuffix. rewrite len_append.
  replace (len s + len suffix - len suffix) with (len s) by lia.
  rewrite drop_append_len, bool_decide_eq_true_2 by done.
  rewrite andb_true_r. apply Nat.leb_le. lia.
Qed.

Lemma TrimSuffix_app s suffix : TrimSuffix (s +:+ suffix) suffix = s.
Proof.
  unfold TrimSuffix. rewrite HasSuffix_app, len_append.
  replace (len s + len suffix - len suffix) with (len s) by lia.
  apply take_append_len.
Qed.

Lemma TrimSuffix_id s suffix : HasSuffix s suffix = false -> TrimSuffix s suffix = s.
Proof. intros Hno. unfold TrimSuffix. by rewrite Hno. Qed.

Lemma len_drop n s : len (drop n s) = len s - n.
Proof. revert s. induction n as [|n IH]; intros [|c s]; cbn; try done. Qed.

Lemma Count_drop_le n s sep : Count (drop n s) sep <= Count s sep.
Proof.
  revert s. induction n as [|n IH]; intros [|c s]; cbn; try lia.
  specialize (IH s). lia.
Qed.

Lemma drop_append_short n s t : n <= len s -> drop n (s +:+ t) = drop n s +:+ t.
Proof.
  revert s. induction n as [|n IH]; intros [|c s] Hn; cbn in *; try done; try lia.
  rewrite append_cons. cbn. apply IH. lia.
Qed.

(** A suffix that holds no separator lies behind the last separator. *)
Lemma HasSuffix_behind_separator s t suffix sep :
  Count suffix sep = 0 ->
  HasSuffix (s +:+ String sep t) suffix = HasSuffix t suffix.
Proof.
  intros Hsuffix. unfold HasSuffix. rewrite len_append. cbn [len].
  destruct (le_lt_dec (len suffix) (len t)) as [Hle|Hlt].
  - replace (len s + S (len t) - len suffix) with (len s + S (len t - len suffix)) by lia.
    rewrite drop_append_len_plus. cbn [drop].
    replace (len suffix <=? len s + S (len t)) with true by (symmetry; apply Nat.leb_le; lia).
    replace (len suffix <=? len t) with true by (symmetry; apply Nat.leb_le; lia).
    done.
  - replace (len suffix <=? len t) with false by (symmetry; apply Nat.leb_gt; lia).
    cbn. rewrite bool_decide_eq_false_2; [apply andb_false_r|].
    intros Hdrop.
    assert (Count (drop (len s + S (len t) - len suffix) (s +:+ String sep t)) sep >= 1)
      as Hcount; [|rewrite Hdrop in Hcount; lia].
    rewrite drop_append_short by lia. rewrite Count_app. cbn.
    rewrite bool_decide_eq_true_2 by done. lia.
Qed.

Lemma Split_no_separator s sep : Count s sep = 0 -> Split s sep = [s].
Proof.
  induction s as [|c s IH]; cbn; [done|].
  case_bool_decide; [lia|]. intros Hcount. by rewrite IH.
Qed.

Lemma Split_at_separator s t sep :
  Count s sep = 0 -> Split (s +:+ String sep t) sep = s :: Split t sep.
Proof.
  induction s as [|c s IH]; intros Hcount.
  - rewrite append_nil. cbn. by rewrite bool_decide_eq_true_2.
  - rewrite append_cons. cbn in *. case_bool_decide; [lia|].
    by rewrite IH.
Qed.

(** The pieces of a string hold no separator, and joined by it they give
    the string back. *)
Lemma Split_two s sep a b :
  Split s sep = [a; b] ->
  s = a +:+ String sep b ∧ Count a sep = 0 ∧ Count b sep = 0.
Proof.
  revert a. induction s as [|c s IH]; intros a; cbn; [done|].
  case_bool_decide as Hc.
  - intros [= <- Hrest]. subst c. split; [|split; [done|]].
    + rewrite append_nil. f_equal.
      assert (Count s sep = 0) as Hs.
      { pose proof (Split_len s sep) as Hlen. rewrite Hrest in Hlen. cbn in Hlen. lia. }
      rewrite Split_no_separator in Hrest by done. by injection Hrest.
    + assert (Count s sep = 0) as Hs.
      { pose proof (Split_len s sep) as Hlen. rewrite Hrest in Hlen. cbn in Hlen. lia. }
      rewrite Split_no_separator in Hrest by done. by injection Hrest as <-.
  - destruct (Split s sep) as [|piece pieces] eqn:Hsplit; [done|].
    intros [= <- ->]. destruct (IH piece eq_refl) as (-> & Ha & Hb).
    split; [by rewrite append_cons|]. split; [|done].
    cbn. rewrite bool_decide_eq_false_2 by done. lia.
Qed.

End more_string_facts.

(** ** [filterPaths] *)

Section filter_paths.
Implicit Types (entries : list (option TreeEntry)) (path : string).

Lemma filterPaths_loop_step entries path dirOnly maxResults matched entry :
  (Z.of_nat (List.length matched) =? maxResults)%Z = false ->
  filterPaths_loop (entry :: entries) path dirOnly maxResults matched =
  filterPaths_loop entries path dirOnly maxResults
    (matched ++ option_list (path_match path dirOnly entry)).
Proof.
  intros Hroom. cbn [filterPaths_loop]. rewrite Hroom. unfold path_match.
  destruct (dirOnly && negb (bool_decide (GetType entry = "tree"))); cbn;
    [by rewrite app_nil_r|].
  case_bool_decide; cbn; [by rewrite app_nil_r|].
  destruct (HasSuffix (GetPath entry) path); cbn; [done | by rewrite app_nil_r].
Qed.

Lemma filterPaths_loop_unlimited entries path dirOnly maxResults matched :
  (maxResults < 0)%Z ->
  filterPaths_loop entries path dirOnly maxResults matched =
  matched ++ omap (path_match path dirOnly) entries.
Proof.
  intros Hneg. revert matched.
  induction entries as [|entry entries IH]; intros matched.
  - cbn. by rewrite app_nil_r.
  - rewrite filterPaths_loop_step by (apply Z.eqb_neq; lia).
    rewrite IH, <- app_assoc. cbn. by destruct (path_match path dirOnly entry).
Qed.

Lemma filterPaths_loop_limited entries path dirOnly maxResults matched :
  (0 <= maxResults)%Z ->
  List.length matched <= Z.to_nat maxResults ->
  filterPaths_loop entries path dirOnly maxResults matched =
  matched ++ firstn (Z.to_nat maxResults - List.length matched)
               (omap (path_match path dirOnly) entries).
Proof.
  intros Hmax. revert matched.
  induction entries as [|entry entries IH]; intros matched Hlen.
  - cbn. by rewrite take_nil, app_nil_r.
  - destruct (Z.of_nat (List.length matched) =? maxResults)%Z eqn:Hfull.
    + cbn [filterPaths_loop]. rewrite Hfull. apply Z.eqb_eq in Hfull.
      replace (Z.to_nat maxResults - List.length matched) with 0 by lia.
      by rewrite take_0, app_nil_r.
    + rewrite filterPaths_loop_step by done. apply Z.eqb_neq in Hfull.
      cbn [omap list_omap]. destruct (path_match path dirOnly entry) as [found|]; cbn.
      * rewrite IH by (rewrite length_app; cbn; lia).
        rewrite length_app. cbn.
        replace (Z.to_nat maxResults - List.length matched)
          with (S (Z.to_nat maxResults - (List.length matched + 1))) by lia.
        cbn. by rewrite <- app_assoc.
      * rewrite app_nil_r. by apply IH.
Qed.

(** X1.  The limit of filterPaths cuts the unlimited result short: with a
    limit of zero or more the result is that many first matches of the
    result without limit, in the order of the tree, and any negative
    limit, not only -1, means no limit. *)
Theorem filterPaths_limit entries path (maxResults : Z) :
  filterPaths entries path maxResults =
  if (maxResults <? 0)%Z then filterPaths entries path (-1)
  else firstn (Z.to_nat maxResults) (filterPaths entries path (-1)).
Proof.
  unfold filterPaths.
  rewrite (filterPaths_loop_unlimited _ _ _ (-1)) by lia.
  destruct (maxResults <? 0)%Z eqn:Hneg.
  - apply Z.ltb_lt in Hneg. by rewrite filterPaths_loop_unlimited.
  - apply Z.ltb_ge in Hneg. rewrite filterPaths_loop_limited by (cbn; lia).
    cbn. by rewrite Nat.sub_0_r.
Qed.

(** X2.  With a limit of zero or more, filterPaths returns at most that
    many paths. *)
Theorem filterPaths_bound entries path (maxResults : Z) :
  (0 <= maxResults)%Z ->
  (Z.of_nat (List.length (filterPaths entries path maxResults)) <= maxResults)%Z.
Proof.
  intros Hmax. unfold filterPaths.
  rewrite filterPaths_loop_limited by (cbn; lia). cbn.
  rewrite length_take. lia.
Qed.

Lemma elem_of_filterPaths_loop entries path dirOnly maxResults (found : string) :
  found ∈ filterPaths_loop entries path dirOnly maxResults [] ->
  ∃ entry, entry ∈ entries ∧ path_match path dirOnly entry = Some found.
Proof.
  destruct (Z.ltb_spec maxResults 0) as [Hneg|Hmax].
  - rewrite filterPaths_loop_unlimited by done. cbn.
    by intros (entry & ? & ?)%list_elem_of_omap; exists entry.
  - rewrite filterPaths_loop_limited by (cbn; lia). cbn.
    intros Hfound%subseteq_take.
    by apply list_elem_of_omap in Hfound as (entry & ? & ?); exists entry.
Qed.

(** X3.  Every path that filterPaths returns comes from an entry of the
    tree with a non-empty path that ends with the path asked for (its
    trailing slash apart); the path of a directory is returned with a
    slash appended, any other path as it is.  When the path asked for ends
    with a slash, only directories are returned. *)
Theorem filterPaths_sound entries path (maxResults : Z) (found : string) :
  found ∈ filterPaths entries path maxResults ->
  ∃ entry, entry ∈ entries
    ∧ GetPath entry ≠ ""
    ∧ HasSuffix (GetPath entry) (TrimSuffix path "/") = true
    ∧ found = (if bool_decide (GetType entry = "tree") then GetPath entry +:+ "/"
               else GetPath entry)
    ∧ (HasSuffix path "/" = true -> GetType entry = "tree").
Proof.
  unfold filterPaths. intros (entry & Hentry & Hmatch)%elem_of_filterPaths_loop.
  exists entry. split; [done|]. unfold path_match in Hmatch.
  destruct (HasSuffix path "/") eqn:Hdir; cbn in Hmatch.
  - case_bool_decide as Htree; cbn in Hmatch; [|done].
    case_bool_decide as Hempty; [done|].
    destruct (HasSuffix (GetPath entry) _) eqn:Hsuffix; [|done].
    by injection Hmatch as <-.
  - rewrite (TrimSuffix_id _ _ Hdir).
    case_bool_decide as Hempty; [done|].
    destruct (HasSuffix (GetPath entry) path) eqn:Hsuffix; [|done].
    by injection Hmatch as <-.
Qed.

End filter_paths.

(** ** The options of the gRPC connection *)

(** X4.  grpcDialOptions panics only when TLS is asked for and the system
    root CAs cannot be loaded.  When it returns, the options hold exactly
    one transport credential, as the last option: the insecure one exactly
    when TLS is off.  An authority option comes before it exactly when the
    authority is not empty. *)
Theorem grpcDialOptions_shape {CertPool : Type} (loadSystemRootCAs : result CertPool)
    (authority : string) (tlsEnabled : bool) :
  match grpcDialOptions loadSystemRootCAs authority tlsEnabled with
  | Panics _ => tlsEnabled = true ∧ is_Ok loadSystemRootCAs = false
  | Returns opts =>
      List.length (filter (fun o => is_credentials o = true) opts) = 1
      ∧ (∃ creds, last opts = Some (WithTransportCredentials creds)
                  ∧ (creds = insecure_NewCredentials <-> tlsEnabled = false))
      ∧ (WithAuthority authority ∈ opts <-> authority ≠ "")
      ∧ List.length opts = (if bool_decide (authority = "") then 1 else 2)
  end.
Proof.
  unfold grpcDialOptions.
  destruct tlsEnabled; cbn; [destruct loadSystemRootCAs as [rootCAs|err]; cbn; [|done]|];
    case_bool_decide as Hauthority; cbn;
    (split; [done|]); (split; [eexists; split; [done|]; split; done|]);
    (split; [|done]); split; try done.
  all: try (intros Hin; apply elem_of_cons in Hin as [Heq|Hin]; [done|];
            by apply elem_of_nil in Hin).
  all: intros _; apply elem_of_cons; by left.
Qed.

(** ** Runs of programs *)

Section runs.
Context {parser : UrlParser}.

Lemma run_from_always {R : Type} (v : Validator) (world : Provider) (P : Call -> Prop)
    (p : Prog R) (made : list Call) :
  always P p -> Forall P made -> Forall P (run_from v world made p).2.
Proof.
  revert made. induction p as [r|c k IH]; intros made; cbn; [done|].
  intros [Hc Hk] Hmade. apply IH; [done|].
  apply Forall_app. split; [done|]. by apply Forall_singleton.
Qed.

Lemma run_always {R : Type} (v : Validator) (world : Provider) (P : Call -> Prop)
    (p : Prog R) (c : Call) :
  always P p -> c ∈ (run v world p).2 -> P c.
Proof.
  intros Hp Hc. eapply Forall_forall; [|done].
  by apply run_from_always.
Qed.

Lemma always_bind {A B : Type} (P : Call -> Prop) (m : Prog A) (f : A -> Prog B) :
  always P m -> (∀ a, always P (f a)) -> always P (Prog_bind f m).
Proof.
  intros Hm Hf. induction m as [a|c k IH]; cbn; [done|].
  destruct Hm as [Hc Hk]. split; [done|]. intros x. by apply IH.
Qed.

Lemma run_from_along {R : Type} (v : Validator) (world : Provider)
    (p : Prog R) (P : list Call -> R -> Prop) (made : list Call) :
  along P p ->
  ∃ calls, (run_from v world made p).2 = made ++ calls
           ∧ P calls (run_from v world made p).1.
Proof.
  revert P made. induction p as [r|c k IH]; intros P made; cbn.
  - exists []. by rewrite app_nil_r.
  - intros Hk.
    destruct (IH (answer v world made c) _ (made ++ [c]) (Hk _)) as (calls & -> & HP).
    exists (c :: calls). by rewrite <- app_assoc.
Qed.

Lemma run_along {R : Type} (v : Validator) (world : Provider)
    (p : Prog R) (P : list Call -> R -> Prop) :
  along P p -> P (run v world p).2 (run v world p).1.
Proof.
  intros Hp. unfold run.
  destruct (run_from_along v world p P [] Hp) as (calls & Hcalls & HP).
  by rewrite Hcalls.
Qed.

Lemma run_from_agree {R R' : Type} (f : R -> R') (v : Validator) (world : Provider)
    (p q : Prog R) (made : list Call) :
  agree f p q ->
  f (run_from v world made p).1 = f (run_from v world made q).1
  ∧ (run_from v world made p).2 = (run_from v world made q).2.
Proof.
  intros Hagree. revert made.
  induction Hagree as [a b Hab|c k k' _ IH]; intros made; cbn; [done|]. apply IH.
Qed.

Lemma answer_after (v : Validator) (world : Provider) (before made : list Call) (c : Call) :
  answer v (after before world) made c = answer v world (before ++ made) c.
Proof. by destruct c. Qed.

(** Running from calls already made is running against the provider as it
    answers after them. *)
Lemma run_from_after {R : Type} (v : Validator) (world : Provider) (p : Prog R)
    (before made : list Call) :
  run_from v world (before ++ made) p =
  ((run_from v (after before world) made p).1,
   before ++ (run_from v (after before world) made p).2).
Proof.
  revert made. induction p as [r|c k IH]; intros made; cbn; [done|].
  rewrite answer_after, <- app_assoc. apply IH.
Qed.

Lemma run_Vis {R : Type} (v : Validator) (world : Provider) (c : Call)
    (k : Answer c -> Prog R) :
  run v world (Vis c k) =
  ((run v (after [c] world) (k (answer v world [] c))).1,
   c :: (run v (after [c] world) (k (answer v world [] c))).2).
Proof. unfold run. cbn. apply (run_from_after v world _ [c] []). Qed.

End runs.

(** Walking every path of a program: [walk tac] splits the goal along the
    calls and the case distinctions of the program and leaves what is to
    be shown of each call, or of each end, to [tac]. *)
Ltac walk tac :=
  repeat first
    [ exact I
    | progress cbn [always along param Prog_bind call]
    | progress unfold mbind, Prog_mbind
    | match goal with
      | |- _ ∧ _ => split
      | |- ∀ _, _ => intros ?
      | |- always _ (Prog_bind _ (resolveGitReference _ _ _ _)) => apply always_bind
      | |- always _ (param ?r _) => destruct r eqn:?
      | |- always _ (match ?x with _ => _ end) => destruct x eqn:?
      | |- always _ (Prog_bind _ (match ?x with _ => _ end)) => destruct x eqn:?
      | |- always _ (let _ := _ in _) => cbv zeta
      | |- along _ (match ?x with _ => _ end) => destruct x eqn:?
      | |- along _ (Prog_bind _ (match ?x with _ => _ end)) => destruct x eqn:?
      | |- along _ (let _ := _ in _) => cbv zeta
      end
    | solve [tac] ].

Ltac agree_walk :=
  repeat first
    [ apply agree_Ret; reflexivity
    | apply agree_Vis; intros ?
    | progress cbn [param Prog_bind call]
    | progress unfold mbind, Prog_mbind
    | match goal with
      | |- agree _ (param ?r _) _ => destruct r eqn:?
      | |- agree _ (match ?x with _ => _ end) _ => destruct x eqn:?
      | |- agree _ (let _ := _ in _) _ => cbv zeta
      end ].

(** ** [resolveGitReference] *)

Section resolve.
Context {parser : UrlParser}.

Lemma resolveGitReference_lookups (owner repo ref sha : string) :
  always (fun c => c = provider (Repositories_Get owner repo)
                   ∨ ∃ ref', c = provider (Git_GetRef owner repo ref'))
    (resolveGitReference owner repo ref sha).
Proof. unfold resolveGitReference. walk ltac:(eauto). Qed.

Lemma resolveGitReference_about (owner repo ref sha : string) :
  always (about owner repo) (resolveGitReference owner repo ref sha).
Proof. unfold resolveGitReference. walk ltac:(cbn; auto). Qed.

Lemma resolveGitReference_read_only (owner repo ref sha : string) :
  always (fun c => writes c = false) (resolveGitReference owner repo ref sha).
Proof. unfold resolveGitReference. walk ltac:(done). Qed.

(** X5.  resolveGitReference only looks things up: whatever the provider
    answers, it makes at most two calls, each of them Repositories.Get or
    Git.GetRef on the repository it was given; and when a SHA is given it
    makes no call at all and returns that SHA with an empty ref. *)
Theorem resolveGitReference_calls (v : Validator) (world : Provider)
    (owner repo ref sha : string) :
  (∀ c, c ∈ (run v world (resolveGitReference owner repo ref sha)).2 ->
        c = provider (Repositories_Get owner repo)
        ∨ ∃ ref', c = provider (Git_GetRef owner repo ref'))
  ∧ List.length (run v world (resolveGitReference owner repo ref sha)).2 <= 2
  ∧ (sha ≠ "" ->
     run v world (resolveGitReference owner repo ref sha)
     = (Ok {| opts_Ref := ""; opts_SHA := sha |}, [])).
Proof.
  split; [|split].
  - intros c Hc.
    by apply (run_always v world _ _ c (resolveGitReference_lookups owner repo ref sha)).
  - apply (run_along v world _ (fun calls _ => List.length calls <= 2)).
    unfold resolveGitReference. walk ltac:(cbn; lia).
  - intros Hsha. unfold resolveGitReference.
    by rewrite (bool_decide_eq_false_2 _ Hsha).
Qed.

(** X6.  When no SHA is given and resolveGitReference succeeds, the ref
    it returns is fully qualified (it starts with refs/), and the last
    call made was the lookup of exactly that ref. *)
Theorem resolveGitReference_qualified (v : Validator) (world : Provider)
    (owner repo ref : string) (opts : ContentOpts) :
  (run v world (resolveGitReference owner repo ref "")).1 = Ok opts ->
  HasPrefix (opts_Ref opts) "refs/" = true
  ∧ last (run v world (resolveGitReference owner repo ref "")).2
    = Some (provider (Git_GetRef owner repo (opts_Ref opts))).
Proof.
  apply (run_along v world _
           (fun calls res => res = Ok opts ->
              HasPrefix (opts_Ref opts) "refs/" = true
              ∧ last calls = Some (provider (Git_GetRef owner repo (opts_Ref opts))))).
  unfold resolveGitReference. cbn [negb bool_decide].
  rewrite (bool_decide_eq_true_2 ("" = "")) by done. cbn [negb].
  walk ltac:(discriminate).
  all: match goal with H : Ok _ = Ok _ |- _ => injection H as <- end; cbn [opts_Ref].
  all: first [ reflexivity | assumption | apply (HasPrefix_app "refs/") ].
Qed.

(** X7.  A short name (not empty, not starting with refs/, heads/ or
    tags/) is tried as a branch first.  The tag of that name is looked up
    only after the branch lookup came back as not found, and nothing else
    is looked up. *)
Theorem resolveGitReference_short_name (v : Validator) (world : Provider)
    (owner repo ref : string) :
  ref ≠ "" ->
  HasPrefix ref "refs/" = false ->
  HasPrefix ref "heads/" || HasPrefix ref "tags/" = false ->
  (run v world (resolveGitReference owner repo ref "")).2
  = [provider (Git_GetRef owner repo ("refs/heads/" +:+ ref))]
  ∨ ((run v world (resolveGitReference owner repo ref "")).2
     = [provider (Git_GetRef owner repo ("refs/heads/" +:+ ref));
        provider (Git_GetRef owner repo ("refs/tags/" +:+ ref))]
     ∧ ∃ err resp,
         world [] (Git_GetRef owner repo ("refs/heads/" +:+ ref)) = Failure err resp
         ∧ api_status err = Some 404%Z).
Proof.
  intros Hne Hrefs Hpartial. unfold run, resolveGitReference.
  rewrite (bool_decide_eq_true_2 ("" = "")) by done.
  rewrite (bool_decide_eq_false_2 _ Hne), Hrefs, Hpartial. cbn.
  destruct (world [] (Git_GetRef owner repo ("refs/heads/" +:+ ref)))
    as [reference resp|err resp] eqn:Hbranch; cbn; [by left|].
  destruct (is_not_found err) eqn:Hnotfound; cbn; [|by left].
  right. split.
  - destruct (world _ (Git_GetRef owner repo ("refs/tags/" +:+ ref)))
      as [reference resp'|err' resp']; cbn; [done|].
    by destruct (is_not_found err').
  - exists err, resp. split; [done|]. unfold is_not_found in Hnotfound.
    destruct (api_status err) as [code|]; [|done].
    by apply Z.eqb_eq in Hnotfound as ->.
Qed.

End resolve.

(** ** The access check *)

Section access_check.
Context {parser : UrlParser}.

Lemma IsRepositoryAccessible_granted (v : Validator) (repoURL : string) (err : option error) :
  IsRepositoryAccessible v repoURL = (true, err) ->
  err = None ∧ initialized v = true
  ∧ ∃ key, normalizeRepositoryURL repoURL = Ok key ∧ key ∈ accessibleRepos v.
Proof.
  unfold IsRepositoryAccessible. destruct (initialized v); cbn; [|done].
  destruct (normalizeRepositoryURL repoURL) as [key|e]; [|done].
  case_bool_decide as Hkey; [|done]. intros [= <-]. eauto.
Qed.

(** X8.  IsRepositoryAccessible reports an error exactly when the
    validator is not initialized or the reference does not normalize, and
    it answers true exactly when the validator is initialized and the
    normalized key is in the access set; it never answers true together
    with an error. *)
Theorem IsRepositoryAccessible_outcomes (v : Validator) (repoURL : string) :
  ((IsRepositoryAccessible v repoURL).2 = None <->
   initialized v = true ∧ is_Ok (normalizeRepositoryURL repoURL) = true)
  ∧ ((IsRepositoryAccessible v repoURL).1 = true <->
     initialized v = true
     ∧ ∃ key, normalizeRepositoryURL repoURL = Ok key ∧ key ∈ accessibleRepos v)
  ∧ ((IsRepositoryAccessible v repoURL).1 = true -> (IsRepositoryAccessible v repoURL).2 = None).
Proof.
  unfold IsRepositoryAccessible. destruct (initialized v); cbn.
  - destruct (normalizeRepositoryURL repoURL) as [key|e]; cbn.
    + split; [done|]. split; [|done]. split.
      * intros Hin%bool_decide_eq_true. eauto.
      * intros [_ (key' & [= <-] & Hin)]. by apply bool_decide_eq_true.
    + split; [split; [done | by intros [_ ?]]|]. split; [|done].
      split; [done | by intros [_ (key & ? & _)]].
  - split; [split; [done | by intros [? _]]|]. split; [|done].
    split; [done | by intros [? _]].
Qed.

End access_check.

(** ** More on the gated handlers *)

Section more_gate.
Context {parser : UrlParser} {Request : Type} {params : ToolRequest Request}
  {joiner : UrlJoiner}.

(** What every gated handler does up to and with the answer of the check. *)
Lemma handler_shape (tool : GatedTool) (request : Request) :
  (∃ err, handler tool request = Ret (ToolResult (ToolResultError err))
          ∧ (RequiredParam request "owner" = Err err
             ∨ (is_Ok (RequiredParam request "owner") = true
                ∧ RequiredParam request "repo" = Err err)))
  ∨ ∃ owner repo k,
      RequiredParam request "owner" = Ok owner
      ∧ RequiredParam request "repo" = Ok repo
      ∧ handler tool request = Vis (gate_check owner repo) k
      ∧ (∀ b err, k (b, Some err) = Ret (validation_failed err))
      ∧ k (false, None) = Ret (ToolResult (ToolResultError (denied owner repo))).
Proof.
  destruct tool; cbn;
    unfold GetFileContentsWithValidation, GetCommitWithValidation,
      ListCommitsWithValidation, ListBranchesWithValidation, CreateBranchWithValidation;
    destruct (RequiredParam request "owner") as [owner|err]; cbn; try (left; by eauto);
    destruct (RequiredParam request "repo") as [repo|err]; cbn; try (left; by eauto);
    right; exists owner, repo; eexists; repeat split; reflexivity.
Qed.

(** X9.  A call reaches the provider only on a grant: if any call of a
    run of a gated handler reaches the provider, then the owner and repo
    parameters were read, the validator is initialized, and the key that
    github.com/<owner>/<repo> normalizes to is in its access set. *)
Theorem provider_only_if_granted (tool : GatedTool) (request : Request) (v : Validator)
    (world : Provider) (c : Call) :
  c ∈ (run v world (handler tool request)).2 ->
  reaches_provider c = true ->
  ∃ owner repo key,
    RequiredParam request "owner" = Ok owner
    ∧ RequiredParam request "repo" = Ok repo
    ∧ initialized v = true
    ∧ normalizeRepositoryURL ("github.com/" +:+ owner +:+ "/" +:+ repo) = Ok key
    ∧ key ∈ accessibleRepos v.
Proof.
  destruct (handler_shape tool request)
    as [(err & -> & _)|(owner & repo & k & Howner & Hrepo & -> & Herr & Hdenied)].
  - intros Hc. by apply elem_of_nil in Hc.
  - rewrite run_Vis. cbn [answer gate_check snd].
    destruct (IsRepositoryAccessible v ("github.com/" +:+ owner +:+ "/" +:+ repo))
      as [[|] [err|]] eqn:Hcheck.
    + by apply IsRepositoryAccessible_granted in Hcheck as [? _].
    + intros _ _. apply IsRepositoryAccessible_granted in Hcheck as (_ & Hinit & key & ? & ?).
      by exists owner, repo, key.
    + rewrite Herr. cbn. intros ->%list_elem_of_singleton. done.
    + rewrite Hdenied. cbn. intros ->%list_elem_of_singleton. done.
Qed.

(** X10.  A gated handler reports an error of the check as "Failed to
    validate repository access: <error>" and makes no other call; a
    request whose owner or repo cannot be read is answered with that
    error before any call is made. *)
Theorem handler_stops_on_error (tool : GatedTool) (request : Request) (v : Validator)
    (world : Provider) :
  (∀ err, RequiredParam request "owner" = Err err ->
          run v world (handler tool request) = (ToolResult (ToolResultError err), []))
  ∧ (∀ owner err, RequiredParam request "owner" = Ok owner ->
                  RequiredParam request "repo" = Err err ->
                  run v world (handler tool request) = (ToolResult (ToolResultError err), []))
  ∧ (∀ owner repo b err,
        RequiredParam request "owner" = Ok owner ->
        RequiredParam request "repo" = Ok repo ->
        IsRepositoryAccessible v ("github.com/" +:+ owner +:+ "/" +:+ repo) = (b, Some err) ->
        run v world (handler tool request)
        = (validation_failed err, [gate_check owner repo])).
Proof.
  destruct (handler_shape tool request)
    as [(err & -> & Hwhy)|(owner & repo & k & Howner & Hrepo & -> & Herr & Hdenied)].
  - unfold run. cbn [run_from]. split; [|split].
    + intros err' Howner. destruct Hwhy as [?|[Hok ?]]; [congruence|].
      by rewrite Howner in Hok.
    + intros owner err' Howner Hrepo. destruct Hwhy as [?|[_ ?]]; congruence.
    + intros owner repo b err' Howner Hrepo. destruct Hwhy as [?|[_ ?]]; congruence.
  - split; [intros; congruence|]. split; [intros; congruence|].
    intros owner' repo' b err Howner' Hrepo'.
    assert (owner' = owner) as -> by congruence.
    assert (repo' = repo) as -> by congruence.
    intros Hcheck. rewrite run_Vis. cbn [answer gate_check]. by rewrite Hcheck, Herr.
Qed.

Lemma handler_about (tool : GatedTool) (request : Request) (owner repo : string) :
  RequiredParam request "owner" = Ok owner ->
  RequiredParam request "repo" = Ok repo ->
  always (about owner repo) (handler tool request).
Proof.
  intros Howner Hrepo.
  destruct tool; cbn [handler];
    unfold GetFileContentsWithValidation, GetCommitWithValidation,
      ListCommitsWithValidation, ListBranchesWithValidation, CreateBranchWithValidation;
    rewrite Howner, Hrepo; walk ltac:(cbn; auto using resolveGitReference_about).
Qed.

(** X11.  A gated handler touches no other repository than the one it
    checked: every call of a run is the check of github.com/<owner>/<repo>,
    a request for a client, or a provider call on exactly that owner and
    repo. *)
Theorem handler_one_repository (tool : GatedTool) (request : Request) (v : Validator)
    (world : Provider) (c : Call) :
  c ∈ (run v world (handler tool request)).2 ->
  ∃ owner repo,
    RequiredParam request "owner" = Ok owner
    ∧ RequiredParam request "repo" = Ok repo
    ∧ match c with
      | validator_IsRepositoryAccessible repoURL =>
          repoURL = "github.com/" +:+ owner +:+ "/" +:+ repo
      | provider c => target c = None ∨ target c = Some (owner, repo)
      end.
Proof.
  destruct (handler_shape tool request)
    as [(err & Hret & _)|(owner & repo & k & Howner & Hrepo & _)].
  - rewrite Hret. intros Hc. by apply elem_of_nil in Hc.
  - intros Hc. exists owner, repo. split; [done|]. split; [done|].
    by apply (run_always v world _ _ c (handler_about tool request owner repo Howner Hrepo)).
Qed.

Lemma read_only_handlers (tool : GatedTool) (request : Request) :
  tool ≠ create_branch ->
  always (fun c => writes c = false) (handler tool request).
Proof.
  intros Htool.
  destruct tool; try done; cbn [handler];
    unfold GetFileContentsWithValidation, GetCommitWithValidation,
      ListCommitsWithValidation, ListBranchesWithValidation;
    walk ltac:(auto using resolveGitReference_read_only).
Qed.

Lemma create_branch_writes (request : Request) :
  always (fun c => writes c = true ->
                   ∃ owner repo branch sha,
                     RequiredParam request "owner" = Ok owner
                     ∧ RequiredParam request "repo" = Ok repo
                     ∧ RequiredParam request "branch" = Ok branch
                     ∧ c = provider (Git_CreateRef owner repo ("refs/heads/" +:+ branch) sha))
    (CreateBranchWithValidation request).
Proof.
  unfold CreateBranchWithValidation. walk ltac:(first [ by cbn in * | eauto 10 ]).
Qed.

(** X12.  The tools annotated read-only never write: no run of
    get_file_contents, get_commit, list_commits or list_branches makes a
    Git.CreateRef call.  create_branch writes only by creating
    refs/heads/<branch>, for the branch, owner and repo of the request. *)
Theorem handler_writes (tool : GatedTool) (request : Request) (v : Validator)
    (world : Provider) (c : Call) :
  c ∈ (run v world (handler tool request)).2 ->
  writes c = true ->
  tool = create_branch
  ∧ ∃ owner repo branch sha,
      RequiredParam request "owner" = Ok owner
      ∧ RequiredParam request "repo" = Ok repo
      ∧ RequiredParam request "branch" = Ok branch
      ∧ c = provider (Git_CreateRef owner repo ("refs/heads/" +:+ branch) sha).
Proof.
  intros Hc Hwrites.
  destruct tool;
    try (assert (writes c = false)
           by (eapply (run_always v world (fun c => writes c = false)); [|exact Hc];
               by apply read_only_handlers);
         congruence).
  split; [done|].
  by apply (run_always v world _ _ c (create_branch_writes request)).
Qed.

End more_gate.

(** ** The gated handlers and the tools without validation *)

Section plain.
Context {parser : UrlParser} {Request : Type} {params : ToolRequest Request}
  {joiner : UrlJoiner}.

(** After a grant the gated handlers go on as the tools without
    validation do from the start. *)
Lemma granted_agree (tool : GatedTool) (plain : Request -> Prog HandlerResult)
    (request : Request) (owner repo : string) :
  plain_handler tool = Some plain ->
  RequiredParam request "owner" = Ok owner ->
  RequiredParam request "repo" = Ok repo ->
  ∃ k, handler tool request = Vis (gate_check owner repo) k
       ∧ agree id (k (true, None)) (plain request).
Proof.
  intros Hplain Howner Hrepo.
  destruct tool; try done; injection Hplain as <-; cbn [handler];
    unfold GetCommitWithValidation, ListBranchesWithValidation, CreateBranchWithValidation,
      GetCommit, ListBranches, CreateBranch;
    rewrite Howner, Hrepo; cbn [param];
    unfold mbind, Prog_mbind, gate_check; cbn [Prog_bind call];
    (eexists; split; [reflexivity|]); cbn; agree_walk.
Qed.

(** X13.  With access granted, get_commit, list_branches and
    create_branch with validation behave as the tools without validation:
    the run is the check followed by the run of the plain tool, with the
    same provider calls and the same result. *)
Theorem granted_run_is_plain_run (tool : GatedTool) (plain : Request -> Prog HandlerResult)
    (request : Request) (v : Validator) (world : Provider) (owner repo : string) :
  plain_handler tool = Some plain ->
  RequiredParam request "owner" = Ok owner ->
  RequiredParam request "repo" = Ok repo ->
  IsRepositoryAccessible v ("github.com/" +:+ owner +:+ "/" +:+ repo) = (true, None) ->
  run v world (handler tool request)
  = ((run v (after [gate_check owner repo] world) (plain request)).1,
     gate_check owner repo :: (run v (after [gate_check owner repo] world) (plain request)).2).
Proof.
  intros Hplain Howner Hrepo Hcheck.
  destruct (granted_agree tool plain request owner repo Hplain Howner Hrepo)
    as (k & -> & Hagree).
  rewrite run_Vis. cbn [answer gate_check]. rewrite Hcheck.
  destruct (run_from_agree id v (after [gate_check owner repo] world) _ _ [] Hagree)
    as [Hresult Hcalls].
  unfold run, gate_check in *. cbn [id] in Hresult. by rewrite Hresult, Hcalls.
Qed.

Lemma list_commits_agree (request : Request) (owner repo : string) :
  RequiredParam request "owner" = Ok owner ->
  RequiredParam request "repo" = Ok repo ->
  ∃ k, ListCommitsWithValidation request = Vis (gate_check owner repo) k
       ∧ agree without_failure_message (k (true, None)) (ListCommits request).
Proof.
  intros Howner Hrepo. unfold ListCommitsWithValidation, ListCommits.
  rewrite Howner, Hrepo; cbn [param].
  unfold mbind, Prog_mbind, gate_check; cbn [Prog_bind call].
  (eexists; split; [reflexivity|]); cbn; agree_walk.
Qed.

(** X14.  With access granted, list_commits with validation makes the
    provider calls of the tool without validation and returns its result,
    except for the message that goes with a failure of the provider: the
    two tools word that message differently. *)
Theorem granted_list_commits (request : Request) (v : Validator) (world : Provider)
    (owner repo : string) :
  RequiredParam request "owner" = Ok owner ->
  RequiredParam request "repo" = Ok repo ->
  IsRepositoryAccessible v ("github.com/" +:+ owner +:+ "/" +:+ repo) = (true, None) ->
  without_failure_message (run v world (handler list_commits request)).1
  = without_failure_message
      (run v (after [gate_check owner repo] world) (ListCommits request)).1
  ∧ (run v world (handler list_commits request)).2
    = gate_check owner repo
      :: (run v (after [gate_check owner repo] world) (ListCommits request)).2.
Proof.
  intros Howner Hrepo Hcheck. cbn [handler].
  destruct (list_commits_agree request owner repo Howner Hrepo) as (k & -> & Hagree).
  rewrite run_Vis. cbn [answer gate_check fst snd]. rewrite Hcheck.
  destruct (run_from_agree without_failure_message v (after [gate_check owner repo] world)
              _ _ [] Hagree) as [Hresult Hcalls].
  unfold run, gate_check in *. by rewrite Hresult, Hcalls.
Qed.

Lemma list_commits_page_size (request : Request) :
  always (pages_of request) (ListCommitsWithValidation request).
Proof.
  unfold ListCommitsWithValidation.
  walk ltac:(unfold pages_of; intros; first
               [ discriminate
               | match goal with
                 | H : provider _ = provider _ |- _ => injection H as <- <- <- <- <- <-
                 end;
                 split;
                 [ match goal with
                   | |- context [(?n =? 0)%Z] => by destruct (Z.eqb_spec n 0)
                   end
                 | eauto 10 ] ]).
Qed.

(** X15.  list_commits never asks the provider for a page size of zero:
    it passes the page size of the request on, and 30 when the request
    gives none. *)
Theorem list_commits_default_page_size (request : Request) (v : Validator) (world : Provider)
    (owner repo sha author : string) (page perPage : Z) :
  provider (Repositories_ListCommits owner repo sha author page perPage)
    ∈ (run v world (handler list_commits request)).2 ->
  perPage ≠ 0%Z
  ∧ ∃ pagination, OptionalPaginationParams request = Ok pagination
      ∧ page = Page pagination
      ∧ perPage = (if (PerPage pagination =? 0)%Z then 30%Z else PerPage pagination).
Proof.
  intros Hc.
  by apply (run_always v world _ _ _ (list_commits_page_size request) Hc
              owner repo sha author page perPage).
Qed.

End plain.

(** ** More on the normalizer *)

Section more_normalizer.
Context {parser : UrlParser}.

Lemma append_assoc (s t u : string) : (s +:+ t) +:+ u = s +:+ (t +:+ u).
Proof.
  induction s as [|c s IH]; [done|].
  rewrite !append_cons. by rewrite IH.
Qed.

Lemma isValidRepoPath_parts (path : string) :
  isValidRepoPath path = true <->
  ∃ owner repo, path = owner +:+ "/" +:+ repo
                ∧ owner ≠ "" ∧ repo ≠ ""
                ∧ Count owner "/" = 0 ∧ Count repo "/" = 0.
Proof.
  unfold isValidRepoPath. split.
  - case_bool_decide as Hempty; [done|].
    destruct (Split path "/") as [|owner [|repo [|]]] eqn:Hsplit; cbn; try done.
    intros [Howner Hrepo]%andb_true_iff.
    apply negb_true_iff, bool_decide_eq_false in Howner, Hrepo.
    apply Split_two in Hsplit as (-> & ? & ?). by exists owner, repo.
  - intros (owner & repo & -> & Howner & Hrepo & Hslash & Hslash').
    change (owner +:+ "/" +:+ repo) with (owner +:+ String "/" repo).
    rewrite Split_at_separator, Split_no_separator by done. cbn.
    rewrite (bool_decide_eq_false_2 (owner = "")), (bool_decide_eq_false_2 (repo = "")) by done.
    rewrite bool_decide_eq_false_2; [done|]. by destruct owner.
Qed.

Lemma normalize_Ok_path (repoURL key : string) :
  normalizeRepositoryURL repoURL = Ok key ->
  ∃ path, key = "github.com/" +:+ path ∧ isValidRepoPath path = true.
Proof.
  unfold normalizeRepositoryURL.
  repeat (match goal with
          | |- context [if ?b then _ else _] => destruct b eqn:?
          | |- context [match ?x with _ => _ end] => destruct x eqn:?
          end; cbn; try done);
    intros [= <-]; eexists; (split; [reflexivity|]);
    by match goal with H : negb _ = false |- _ => apply negb_false_iff in H end.
Qed.

(** X16.  Every key the normalizer returns is github.com/<owner>/<repo>
    with owner and repo non-empty and free of slashes. *)
Theorem normalize_key_shape (repoURL key : string) :
  normalizeRepositoryURL repoURL = Ok key ->
  ∃ owner repo, key = "github.com/" +:+ owner +:+ "/" +:+ repo
                ∧ owner ≠ "" ∧ repo ≠ ""
                ∧ Count owner "/" = 0 ∧ Count repo "/" = 0.
Proof.
  intros (path & -> & Hvalid)%normalize_Ok_path.
  apply isValidRepoPath_parts in Hvalid as (owner & repo & -> & ?).
  by exists owner, repo.
Qed.

Lemma key_suffix (owner repo suffix : string) :
  Count suffix "/" = 0 ->
  HasSuffix ("github.com/" +:+ owner +:+ "/" +:+ repo) suffix = HasSuffix repo suffix
  ∧ HasSuffix (owner +:+ "/" +:+ repo) suffix = HasSuffix repo suffix.
Proof.
  intros Hsuffix. split.
  - rewrite <- append_assoc.
    change (("github.com/" +:+ owner) +:+ "/" +:+ repo)
      with (("github.com/" +:+ owner) +:+ String "/" repo).
    by apply HasSuffix_behind_separator.
  - change (owner +:+ "/" +:+ repo) with (owner +:+ String "/" repo).
    by apply HasSuffix_behind_separator.
Qed.

(** X17.  Normalizing a key again gives the key back unless the key ends
    in .git: on the keys it returns that do not end in .git,
    normalizeRepositoryURL is idempotent. *)
Theorem normalize_idempotent (repoURL key : string) :
  normalizeRepositoryURL repoURL = Ok key ->
  HasSuffix key ".git" = false ->
  normalizeRepositoryURL key = Ok key.
Proof.
  intros (path & -> & Hvalid)%normalize_Ok_path Hgit.
  rewrite normalize_host_prefixed.
  pose proof Hvalid as (owner & repo & -> & _)%isValidRepoPath_parts.
  destruct (key_suffix owner repo ".git" eq_refl) as [Hkey Hpath].
  rewrite Hkey in Hgit. rewrite <- Hpath in Hgit.
  by rewrite (TrimSuffix_id _ _ Hgit), Hvalid.
Qed.

(** X18.  The host prefix is optional: a reference without scheme and
    without the github.com/ prefix normalizes to a key exactly when the
    same reference behind github.com/ does, and to the same key. *)
Theorem normalize_host_prefix_optional (repoURL key : string) :
  HasPrefix repoURL "http://" || HasPrefix repoURL "https://" = false ->
  HasPrefix repoURL "github.com/" = false ->
  normalizeRepositoryURL ("github.com/" +:+ repoURL) = Ok key
  <-> normalizeRepositoryURL repoURL = Ok key.
Proof.
  intros Hscheme Hhost. rewrite normalize_host_prefixed.
  unfold normalizeRepositoryURL at 1. rewrite Hscheme, Hhost.
  destruct (isValidRepoPath (TrimSuffix repoURL ".git")) eqn:Hvalid; cbn.
  - pose proof (isValidRepoPath_Count _ Hvalid) as Hcount.
    rewrite Count_TrimSuffix in Hcount by done. rewrite Hcount. cbn.
    rewrite bool_decide_eq_false_2; [done|]. by intros ->.
  - split; [done|]. case_bool_decide; [done|].
    by destruct (Count repoURL "/" =? 1).
Qed.

(** X19.  A trailing .git is optional behind the host prefix: for a path
    that does not itself end in .git, github.com/<path>.git normalizes to
    a key exactly when github.com/<path> does, and to the same key. *)
Theorem normalize_git_suffix_optional (path key : string) :
  HasSuffix path ".git" = false ->
  normalizeRepositoryURL ("github.com/" +:+ path +:+ ".git") = Ok key
  <-> normalizeRepositoryURL ("github.com/" +:+ path) = Ok key.
Proof.
  intros Hgit. rewrite !normalize_host_prefixed.
  rewrite TrimSuffix_app, (TrimSuffix_id _ _ Hgit).
  by destruct (isValidRepoPath path).
Qed.

End more_normalizer.

(** ** More on the validator *)

Section more_validator.
Context {parser : UrlParser}.

(** X20.  What Initialize files can be asked for: after a successful
    Initialize, every repository that the collaborator returned with an
    org and a name free of slashes, the name not ending in .git, is
    accessible under github.com/<org>/<name>, the reference the handlers
    build. *)
Theorem Initialize_then_accessible (v v' : Validator) (s s' s'' : ResourceMapService)
    (repos : list repository) (err : option error) (r : repository) :
  initialized v = false ->
  GetAllAccessibleRepos (userEmail v) s = (Done (Ok repos), s') ->
  Initialize v s = (Done (v', err), s'') ->
  r ∈ repos ->
  Count (org r) "/" = 0 ->
  Count (repo r) "/" = 0 ->
  HasSuffix (repo r) ".git" = false ->
  IsRepositoryAccessible v' ("github.com/" +:+ org r +:+ "/" +:+ repo r) = (true, None).
Proof.
  intros Hinit Hget Hinitialize Hr Horg Hrepo Hgit.
  rewrite (Initialize_Ok _ _ _ _ Hinit Hget) in Hinitialize.
  injection Hinitialize as <- _ _.
  destruct (GetAllAccessibleRepos_nonempty _ _ _ _ Hget r Hr) as [Horg' Hrepo'].
  unfold IsRepositoryAccessible. cbn [initialized populated negb].
  rewrite normalize_host_prefixed.
  destruct (key_suffix (org r) (repo r) ".git" eq_refl) as [_ Hpath].
  rewrite TrimSuffix_id by (by rewrite Hpath).
  rewrite (proj2 (isValidRepoPath_parts _)) by (by exists (org r), (repo r)).
  rewrite bool_decide_eq_true_2; [done|].
  apply elem_of_populated. by exists r.
Qed.

(** X21.  An initialized validator is final: no sequence of calls changes
    it or asks anything of the resource-map service, so the access set is
    never refreshed. *)
Theorem initialized_is_final (ops : list Op) (v : Validator) (s : ResourceMapService) :
  initialized v = true ->
  session ops v s = (Done v, s).
Proof.
  intros Hinit. induction ops as [|op ops IH]; [done|].
  cbn [session]. unfold mbind, Rms_bind.
  destruct op; cbn [step]; [|done..].
  unfold mbind, Rms_bind. by rewrite Initialize_when_initialized.
Qed.

Lemma Initialize_requests (v : Validator) (s : ResourceMapService) :
  (∃ n, rms_requests (Initialize v s).2 = rms_requests s ++ replicate n (userEmail v))
  ∧ ∀ v' err, (Initialize v s).1 = Done (v', err) ->
              userEmail v' = userEmail v ∧ (initialized v' = false -> v' = v).
Proof.
  unfold Initialize. destruct (initialized v) eqn:Hinit; cbn.
  - split; [exists 0; cbn; by rewrite app_nil_r|]. by intros v' err [= <- _].
  - unfold mbind, Rms_bind, fetchAccessibleRepositories, mbind, Rms_bind,
      GetAllAccessibleRepos, mbind, Rms_bind, initialise, Traverse.
    destruct (rms_dial s (rms_dials s)) as [[?|?]|]; cbn;
      try (split; [exists 0; cbn; by rewrite app_nil_r | done]).
    destruct (rms_traverse s _ (userEmail v)) as [output|e]; cbn.
    + split; [by exists 1|]. by intros v' err [= <- _].
    + split; [by exists 1|]. by intros v' err [= <- _].
Qed.

(** X22.  Along any sequence of calls on a new validator, the validator
    keeps the principal it was made for, its access set is empty for as
    long as it is not initialized, and the service is only ever asked
    about that principal. *)
Theorem session_of_principal (email : string) (ops : list Op) (s s' : ResourceMapService)
    (v : Validator) :
  session ops (NewValidator email) s = (Done v, s') ->
  userEmail v = email
  ∧ (initialized v = false -> GetAccessibleRepositories v = [])
  ∧ ∃ n, rms_requests s' = rms_requests s ++ replicate n email.
Proof.
  assert (∀ v0 s0, userEmail v0 = email ->
                   (initialized v0 = false -> accessibleRepos v0 = ∅) ->
                   session ops v0 s0 = (Done v, s') ->
                   userEmail v = email
                   ∧ (initialized v = false -> accessibleRepos v = ∅)
                   ∧ ∃ n, rms_requests s' = rms_requests s0 ++ replicate n email) as Hgen.
  { induction ops as [|op ops IH]; intros v0 s0 Hemail Hempty; cbn [session].
    - intros [= <- <-]. split; [done|]. split; [done|]. exists 0. by rewrite app_nil_r.
    - unfold mbind, Rms_bind.
      destruct (step op v0 s0) as [[msg|v1] s1] eqn:Hstep; [done|].
      assert (userEmail v1 = email
              ∧ (initialized v1 = false -> accessibleRepos v1 = ∅)
              ∧ ∃ n, rms_requests s1 = rms_requests s0 ++ replicate n email)
        as (Hemail1 & Hempty1 & n1 & Hn1).
      { destruct op; cbn [step] in Hstep;
          try (injection Hstep as <- <-; split; [done|]; split; [done|];
               exists 0; by rewrite app_nil_r).
        unfold mbind, Rms_bind in Hstep.
        destruct (Initialize_requests v0 s0) as ((n & Hn) & Hsame).
        destruct (Initialize v0 s0) as [[msg|[v2 err]] s2] eqn:Hinitialize; [done|].
        injection Hstep as <- <-. cbn in *. rewrite Hemail in *.
        destruct (Hsame v2 err eq_refl) as [Huser Hsame'].
        split; [done|]. split; [|by exists n].
        intros Hinit. pose proof (Hsame' Hinit) as ->. by apply Hempty. }
      intros Hrest. destruct (IH v1 s1 Hemail1 Hempty1 Hrest) as (? & ? & n & Hn).
      split; [done|]. split; [done|]. exists (n1 + n).
      by rewrite Hn, Hn1, replicate_add, app_assoc. }
  intros Hsession.
  destruct (Hgen (NewValidator email) s eq_refl (fun _ => eq_refl) Hsession)
    as (Hemail & Hempty & Hrequests).
  split; [done|]. split; [|done].
  intros Hinit. unfold GetAccessibleRepositories. rewrite (Hempty Hinit).
  apply elements_empty.
Qed.

(** X23.  An attempt of Initialize on a validator that is not initialized
    dials once; with a connection it sends exactly one Traverse request,
    for the validator's principal, and without one it ends the process
    before any request is sent. *)
Theorem Initialize_fetches_once (v : Validator) (s : ResourceMapService) :
  initialized v = false ->
  rms_dials (Initialize v s).2 = S (rms_dials s)
  ∧ match rms_dial s (rms_dials s) with
    | None => rms_requests (Initialize v s).2 = rms_requests s ++ [userEmail v]
              ∧ ∃ outcome, (Initialize v s).1 = Done outcome
    | Some _ => rms_requests (Initialize v s).2 = rms_requests s
                ∧ ∃ msg, (Initialize v s).1 = Fatal msg
    end.
Proof.
  intros Hinit. unfold Initialize. rewrite Hinit.
  unfold mbind, Rms_bind, fetchAccessibleRepositories, mbind, Rms_bind,
    GetAllAccessibleRepos, mbind, Rms_bind, initialise, Traverse.
  destruct (rms_dial s (rms_dials s)) as [[?|?]|]; cbn; try by eauto.
  destruct (rms_traverse s _ (userEmail v)) as [output|e]; cbn; by eauto.
Qed.

(** X24.  GetAccessibleRepositories and IsRepositoryAccessible agree: the
    list holds every key once, and on an initialized validator a reference
    that normalizes is accessible exactly when its key is in the list. *)
Theorem GetAccessibleRepositories_consistent (v : Validator) (repoURL key : string) :
  NoDup (GetAccessibleRepositories v)
  ∧ (initialized v = true ->
     normalizeRepositoryURL repoURL = Ok key ->
     IsRepositoryAccessible v repoURL
     = (bool_decide (key ∈ GetAccessibleRepositories v), None)).
Proof.
  unfold GetAccessibleRepositories. split; [apply NoDup_elements|].
  intros Hinit Hkey. unfold IsRepositoryAccessible. rewrite Hinit, Hkey. cbn.
  f_equal. apply bool_decide_ext. by rewrite elem_of_elements.
Qed.

(** X25.  A failed Initialize can be retried: when the first fetch fails
    and the second succeeds, two calls of Initialize leave the validator
    initialized with the keys of the second fetch. *)
Theorem Initialize_retry (v : Validator) (s s1 s2 : ResourceMapService) (err : error)
    (repos : list repository) :
  initialized v = false ->
  GetAllAccessibleRepos (userEmail v) s = (Done (Err err), s1) ->
  GetAllAccessibleRepos (userEmail v) s1 = (Done (Ok repos), s2) ->
  ∃ v', session [OpInitialize; OpInitialize] v s = (Done v', s2)
        ∧ initialized v' = true
        ∧ ∀ key, key ∈ accessibleRepos v' <->
                 ∃ r, r ∈ repos ∧ key = "github.com/" +:+ org r +:+ "/" +:+ repo r.
Proof.
  intros Hinit Hfirst Hsecond. exists (populated v repos).
  split; [|split; [done | apply elem_of_populated]].
  cbn [session step]. unfold mbind, Rms_bind.
  rewrite (Initialize_Err _ _ _ _ Hinit Hfirst). cbn.
  by rewrite (Initialize_Ok _ _ _ _ Hinit Hsecond).
Qed.

End more_validator.

(** ** The further theorems at concrete inputs *)

Example filterPaths_runs :
  filterPaths example_tree "main.go" (-1) = ["src/main.go"; "cmd/main.go"]
  ∧ filterPaths example_tree "main.go" 1 = ["src/main.go"]
  ∧ filterPaths example_tree "src/" 3 = ["src/"; "cmd/src/"]
  ∧ filterPaths example_tree "src" 3 = ["src/"; "cmd/src/"]
  ∧ filterPaths example_tree "main.go" 0 = [].
Proof. repeat split; reflexivity. Qed.

Lemma filterPaths_bound_witness :
  (0 <= 1)%Z
  ∧ (Z.of_nat (List.length (filterPaths example_tree "main.go" 1)) <= 1)%Z.
Proof. split; [lia | apply filterPaths_bound; lia]. Defined.

Lemma filterPaths_sound_witness :
  ∃ entry, entry ∈ example_tree
    ∧ GetPath entry ≠ ""
    ∧ HasSuffix (GetPath entry) (TrimSuffix "src/" "/") = true
    ∧ "cmd/src/" = (if bool_decide (GetType entry = "tree") then GetPath entry +:+ "/"
                    else GetPath entry)
    ∧ (HasSuffix "src/" "/" = true -> GetType entry = "tree").
Proof.
  apply (filterPaths_sound example_tree "src/" 3 "cmd/src/").
  apply (list_elem_of_lookup_2 _ 1). reflexivity.
Defined.

Lemma resolveGitReference_qualified_witness :
  HasPrefix "refs/heads/main" "refs/" = true
  ∧ last (run (parser:=net_url_Parse) octo_validator obliging_provider
            (resolveGitReference "octo" "hello" "" "")).2
    = Some (provider (Git_GetRef "octo" "hello" "refs/heads/main")).
Proof.
  apply (resolveGitReference_qualified (parser:=net_url_Parse) octo_validator obliging_provider
           "octo" "hello" "" {| opts_Ref := "refs/heads/main"; opts_SHA := "abc123" |}).
  reflexivity.
Defined.

Lemma resolveGitReference_short_name_witness :
  (run (parser:=net_url_Parse) octo_validator tags_only_provider
     (resolveGitReference "octo" "hello" "v1.0" "")).2
  = [provider (Git_GetRef "octo" "hello" ("refs/heads/" +:+ "v1.0"))]
  ∨ ((run (parser:=net_url_Parse) octo_validator tags_only_provider
        (resolveGitReference "octo" "hello" "v1.0" "")).2
     = [provider (Git_GetRef "octo" "hello" ("refs/heads/" +:+ "v1.0"));
        provider (Git_GetRef "octo" "hello" ("refs/tags/" +:+ "v1.0"))]
     ∧ ∃ err resp,
         tags_only_provider [] (Git_GetRef "octo" "hello" ("refs/heads/" +:+ "v1.0"))
         = Failure err resp
         ∧ api_status err = Some 404%Z).
Proof.
  apply (resolveGitReference_short_name (parser:=net_url_Parse)); [done | reflexivity..].
Defined.

Example resolveGitReference_runs :
  run (parser:=net_url_Parse) octo_validator tags_only_provider
    (resolveGitReference "octo" "hello" "v1.0" "")
  = (Ok {| opts_Ref := "refs/tags/v1.0"; opts_SHA := "abc123" |},
     [provider (Git_GetRef "octo" "hello" "refs/heads/v1.0");
      provider (Git_GetRef "octo" "hello" "refs/tags/v1.0")])
  ∧ run (parser:=net_url_Parse) octo_validator tags_only_provider
      (resolveGitReference "octo" "hello" "main" "0123abc")
    = (Ok {| opts_Ref := ""; opts_SHA := "0123abc" |}, []).
Proof. split; reflexivity. Qed.

Lemma provider_only_if_granted_witness :
  ∃ owner repo key,
    RequiredParam (ToolRequest:=arguments_request)
      [("owner", "octo"); ("repo", "hello"); ("branch", "dev")] "owner" = Ok owner
    ∧ RequiredParam (ToolRequest:=arguments_request)
        [("owner", "octo"); ("repo", "hello"); ("branch", "dev")] "repo" = Ok repo
    ∧ initialized octo_validator = true
    ∧ normalizeRepositoryURL (parser:=net_url_Parse)
        ("github.com/" +:+ owner +:+ "/" +:+ repo) = Ok key
    ∧ key ∈ accessibleRepos octo_validator.
Proof.
  apply (provider_only_if_granted (parser:=net_url_Parse) (params:=arguments_request)
           (joiner:=names_JoinPath) create_branch
           [("owner", "octo"); ("repo", "hello"); ("branch", "dev")]
           octo_validator obliging_provider
           (provider (Git_CreateRef "octo" "hello" "refs/heads/dev" (Some "abc123"))));
    [|reflexivity].
  apply (list_elem_of_lookup_2 _ 4). reflexivity.
Defined.

Lemma handler_stops_on_error_witness :
  run (parser:=net_url_Parse) (NewValidator "dev@example.com") obliging_provider
    (handler (params:=arguments_request) (joiner:=names_JoinPath) get_commit
       [("owner", "octo"); ("repo", "hello"); ("sha", "abc123")])
  = (validation_failed "validator not initialized", [gate_check "octo" "hello"])
  ∧ run_tool get_commit [("owner", "octo/x"); ("repo", "hello"); ("sha", "abc123")]
    = (validation_failed
         ("failed to normalize repository URL: "
            +:+ "unsupported repository URL format: github.com/octo/x/hello"),
       [gate_check "octo/x" "hello"])
  ∧ run_tool get_commit [("repo", "hello")]
    = (ToolResult (ToolResultError "missing required parameter: owner"), []).
Proof.
  split; [|split].
  - apply (proj2 (proj2 (handler_stops_on_error (parser:=net_url_Parse)
                           (params:=arguments_request) (joiner:=names_JoinPath) get_commit
                           [("owner", "octo"); ("repo", "hello"); ("sha", "abc123")]
                           (NewValidator "dev@example.com") obliging_provider))
             "octo" "hello" false); reflexivity.
  - apply (proj2 (proj2 (handler_stops_on_error (parser:=net_url_Parse)
                           (params:=arguments_request) (joiner:=names_JoinPath) get_commit
                           [("owner", "octo/x"); ("repo", "hello"); ("sha", "abc123")]
                           octo_validator obliging_provider))
             "octo/x" "hello" false); reflexivity.
  - apply (proj1 (handler_stops_on_error (parser:=net_url_Parse)
                    (params:=arguments_request) (joiner:=names_JoinPath) get_commit
                    [("repo", "hello")] octo_validator obliging_provider)).
    reflexivity.
Defined.

Lemma handler_one_repository_witness :
  ∃ owner repo,
    RequiredParam (ToolRequest:=arguments_request)
      [("owner", "octo"); ("repo", "hello"); ("path", "README.md")] "owner" = Ok owner
    ∧ RequiredParam (ToolRequest:=arguments_request)
        [("owner", "octo"); ("repo", "hello"); ("path", "README.md")] "repo" = Ok repo
    ∧ (target (RawClient_GetRawContent "octo" "hello" "README.md"
                 {| opts_Ref := "refs/heads/main"; opts_SHA := "abc123" |}) = None
       ∨ target (RawClient_GetRawContent "octo" "hello" "README.md"
                   {| opts_Ref := "refs/heads/main"; opts_SHA := "abc123" |})
         = Some (owner, repo)).
Proof.
  apply (handler_one_repository (parser:=net_url_Parse) (params:=arguments_request)
           (joiner:=names_JoinPath) get_file_contents
           [("owner", "octo"); ("repo", "hello"); ("path", "README.md")]
           octo_validator obliging_provider
           (provider (RawClient_GetRawContent "octo" "hello" "README.md"
                        {| opts_Ref := "refs/heads/main"; opts_SHA := "abc123" |}))).
  apply (list_elem_of_lookup_2 _ 6). reflexivity.
Defined.

Lemma handler_writes_witness :
  create_branch = create_branch
  ∧ ∃ owner repo branch sha,
      RequiredParam (ToolRequest:=arguments_request)
        [("owner", "octo"); ("repo", "hello"); ("branch", "dev")] "owner" = Ok owner
      ∧ RequiredParam (ToolRequest:=arguments_request)
          [("owner", "octo"); ("repo", "hello"); ("branch", "dev")] "repo" = Ok repo
      ∧ RequiredParam (ToolRequest:=arguments_request)
          [("owner", "octo"); ("repo", "hello"); ("branch", "dev")] "branch" = Ok branch
      ∧ provider (Git_CreateRef "octo" "hello" "refs/heads/dev" (Some "abc123"))
        = provider (Git_CreateRef owner repo ("refs/heads/" +:+ branch) sha).
Proof.
  apply (handler_writes (parser:=net_url_Parse) (params:=arguments_request)
           (joiner:=names_JoinPath) create_branch
           [("owner", "octo"); ("repo", "hello"); ("branch", "dev")]
           octo_validator obliging_provider); [|reflexivity].
  apply (list_elem_of_lookup_2 _ 4). reflexivity.
Defined.

Lemma granted_run_is_plain_run_witness :
  run_tool create_branch [("owner", "octo"); ("repo", "hello"); ("branch", "dev")]
  = ((run (parser:=net_url_Parse) octo_validator
        (after [gate_check "octo" "hello"] obliging_provider)
        (CreateBranch (params:=arguments_request)
           [("owner", "octo"); ("repo", "hello"); ("branch", "dev")])).1,
     gate_check "octo" "hello"
     :: (run (parser:=net_url_Parse) octo_validator
           (after [gate_check "octo" "hello"] obliging_provider)
           (CreateBranch (params:=arguments_request)
              [("owner", "octo"); ("repo", "hello"); ("branch", "dev")])).2).
Proof.
  apply (granted_run_is_plain_run (parser:=net_url_Parse) (params:=arguments_request)
           (joiner:=names_JoinPath) create_branch); reflexivity.
Defined.

Lemma granted_list_commits_witness :
  without_failure_message
    (run_tool list_commits [("owner", "octo"); ("repo", "hello")]).1
  = without_failure_message
      (run (parser:=net_url_Parse) octo_validator
         (after [gate_check "octo" "hello"] obliging_provider)
         (ListCommits (params:=arguments_request) [("owner", "octo"); ("repo", "hello")])).1
  ∧ (run_tool list_commits [("owner", "octo"); ("repo", "hello")]).2
    = gate_check "octo" "hello"
      :: (run (parser:=net_url_Parse) octo_validator
            (after [gate_check "octo" "hello"] obliging_provider)
            (ListCommits (params:=arguments_request)
               [("owner", "octo"); ("repo", "hello")])).2.
Proof.
  apply (granted_list_commits (parser:=net_url_Parse) (params:=arguments_request)
           (joiner:=names_JoinPath)); reflexivity.
Defined.

Lemma list_commits_default_page_size_witness :
  30%Z ≠ 0%Z
  ∧ ∃ pagination,
      OptionalPaginationParams (ToolRequest:=arguments_request)
        [("owner", "octo"); ("repo", "hello")] = Ok pagination
      ∧ 1%Z = Page pagination
      ∧ 30%Z = (if (PerPage pagination =? 0)%Z then 30%Z else PerPage pagination).
Proof.
  apply (list_commits_default_page_size (parser:=net_url_Parse) (params:=arguments_request)
           (joiner:=names_JoinPath) [("owner", "octo"); ("repo", "hello")]
           octo_validator obliging_provider "octo" "hello" "" "" 1%Z 30%Z).
  apply (list_elem_of_lookup_2 _ 2). reflexivity.
Defined.

Lemma normalize_key_shape_witness :
  ∃ owner repo, "github.com/OwNeR/RePo" = "github.com/" +:+ owner +:+ "/" +:+ repo
                ∧ owner ≠ "" ∧ repo ≠ ""
                ∧ Count owner "/" = 0 ∧ Count repo "/" = 0.
Proof.
  apply (normalize_key_shape (parser:=net_url_Parse) "https://github.com/OwNeR/RePo.git").
  reflexivity.
Defined.

Lemma normalize_idempotent_witness :
  normalizeRepositoryURL (parser:=net_url_Parse) "https://github.com/owner/repo.git"
  = Ok "github.com/owner/repo"
  ∧ normalizeRepositoryURL (parser:=net_url_Parse) "github.com/owner/repo"
    = Ok "github.com/owner/repo".
Proof.
  split; [reflexivity|].
  apply (normalize_idempotent (parser:=net_url_Parse) "https://github.com/owner/repo.git");
    reflexivity.
Defined.

(** On a key that ends in .git the normalizer is not idempotent: it cuts
    one .git at a time. *)
Example normalize_twice :
  normalizeRepositoryURL (parser:=net_url_Parse) "owner/repo.git.git"
  = Ok "github.com/owner/repo.git"
  ∧ normalizeRepositoryURL (parser:=net_url_Parse) "github.com/owner/repo.git"
    = Ok "github.com/owner/repo".
Proof. split; reflexivity. Qed.

Lemma normalize_host_prefix_optional_witness :
  normalizeRepositoryURL (parser:=net_url_Parse) ("github.com/" +:+ "owner/repo.git")
  = Ok "github.com/owner/repo"
  <-> normalizeRepositoryURL (parser:=net_url_Parse) "owner/repo.git"
      = Ok "github.com/owner/repo".
Proof.
  apply (normalize_host_prefix_optional (parser:=net_url_Parse)); reflexivity.
Defined.

Lemma normalize_git_suffix_optional_witness :
  normalizeRepositoryURL (parser:=net_url_Parse) ("github.com/" +:+ "owner/repo" +:+ ".git")
  = Ok "github.com/owner/repo"
  <-> normalizeRepositoryURL (parser:=net_url_Parse) ("github.com/" +:+ "owner/repo")
      = Ok "github.com/owner/repo".
Proof.
  apply (normalize_git_suffix_optional (parser:=net_url_Parse)); reflexivity.
Defined.

Lemma Initialize_then_accessible_witness :
  IsRepositoryAccessible (parser:=net_url_Parse) octo_validator
    ("github.com/" +:+ "octo" +:+ "/" +:+ "hello") = (true, None).
Proof.
  apply (Initialize_then_accessible (parser:=net_url_Parse)
           (NewValidator "dev@example.com") octo_validator
           (service (Ok [graph_node "octo" "hello"]))
           (service_at (Ok [graph_node "octo" "hello"]) 1 ["dev@example.com"])
           (service_at (Ok [graph_node "octo" "hello"]) 1 ["dev@example.com"])
           [mkRepository "hello" "octo"] None (mkRepository "hello" "octo"));
    try reflexivity.
  apply list_elem_of_singleton. reflexivity.
Defined.

Lemma initialized_is_final_witness :
  initialized octo_validator = true
  ∧ session [OpInitialize; OpIsRepositoryAccessible "octo/hello"; OpInitialize;
             OpGetAccessibleRepositories]
      octo_validator (service (Ok [graph_node "octo" "other"]))
    = (Done octo_validator, service (Ok [graph_node "octo" "other"])).
Proof. split; [reflexivity | apply initialized_is_final; reflexivity]. Defined.

Lemma session_of_principal_witness :
  userEmail (NewValidator "dev@example.com") = "dev@example.com"
  ∧ (initialized (NewValidator "dev@example.com") = false ->
     GetAccessibleRepositories (NewValidator "dev@example.com") = [])
  ∧ ∃ n, rms_requests (service_at (Err "rpc error: unavailable") 2
                         ["dev@example.com"; "dev@example.com"])
         = rms_requests (service (Err "rpc error: unavailable"))
           ++ replicate n "dev@example.com".
Proof.
  apply (session_of_principal "dev@example.com"
           [OpInitialize; OpGetAccessibleRepositories; OpInitialize]
           (service (Err "rpc error: unavailable"))).
  reflexivity.
Defined.

Lemma Initialize_fetches_once_witness :
  rms_dials (Initialize (NewValidator "dev@example.com") unreachable_service).2 = 1
  ∧ rms_requests (Initialize (NewValidator "dev@example.com") unreachable_service).2 = []
  ∧ ∃ msg, (Initialize (NewValidator "dev@example.com") unreachable_service).1 = Fatal msg.
Proof.
  apply (Initialize_fetches_once (NewValidator "dev@example.com") unreachable_service).
  reflexivity.
Defined.

Lemma Initialize_retry_witness :
  ∃ v', session [OpInitialize; OpInitialize] (NewValidator "dev@example.com")
          (flaky_service [graph_node "octo" "hello"])
        = (Done v',
           {| rms_dial := rms_dial (flaky_service [graph_node "octo" "hello"]);
              rms_traverse := rms_traverse (flaky_service [graph_node "octo" "hello"]);
              rms_dials := 2; rms_requests := ["dev@example.com"; "dev@example.com"] |})
        ∧ initialized v' = true
        ∧ ∀ key, key ∈ accessibleRepos v' <->
                 ∃ r, r ∈ [mkRepository "hello" "octo"]
                      ∧ key = "github.com/" +:+ org r +:+ "/" +:+ repo r.
Proof.
  apply (Initialize_retry (NewValidator "dev@example.com")
           (flaky_service [graph_node "octo" "hello"])
           {| rms_dial := rms_dial (flaky_service [graph_node "octo" "hello"]);
              rms_traverse := rms_traverse (flaky_service [graph_node "octo" "hello"]);
              rms_dials := 1; rms_requests := ["dev@example.com"] |}
           _ "rpc error: unavailable"); reflexivity.
Defined.

Lemma resolveGitReference_calls_witness :
  List.length (run (parser:=net_url_Parse) octo_validator tags_only_provider
                 (resolveGitReference "octo" "hello" "v1.0" "")).2 <= 2
  ∧ run (parser:=net_url_Parse) octo_validator tags_only_provider
      (resolveGitReference "octo" "hello" "v1.0" "0123abc")
    = (Ok {| opts_Ref := ""; opts_SHA := "0123abc" |}, []).
Proof.
  split.
  - apply (resolveGitReference_calls (parser:=net_url_Parse) octo_validator
             tags_only_provider "octo" "hello" "v1.0" "").
  - by apply (resolveGitReference_calls (parser:=net_url_Parse) octo_validator
                tags_only_provider "octo" "hello" "v1.0" "0123abc").
Defined.

Lemma GetAccessibleRepositories_consistent_witness :
  NoDup (GetAccessibleRepositories octo_validator)
  ∧ IsRepositoryAccessible (parser:=net_url_Parse) octo_validator "octo/hello.git"
    = (bool_decide ("github.com/octo/hello" ∈ GetAccessibleRepositories octo_validator), None).
Proof.
  split.
  - apply (GetAccessibleRepositories_consistent (parser:=net_url_Parse) octo_validator
             "octo/hello.git" "github.com/octo/hello").
  - apply (GetAccessibleRepositories_consistent (parser:=net_url_Parse) octo_validator
             "octo/hello.git" "github.com/octo/hello"); reflexivity.
Defined.
